(** * UK vacancies: vintage-aware consolidation and forecast pipeline

    A shallow embedding of [UK_Vacancies_Analysis.py] (and of the linear
    variant [initial_script.py]): the vintage parser, the consolidator, the
    revision charts, the canonical-series builder, the diagnostics and the
    assembly of the forecast table, and the download loop, with the
    properties the specification states about them.

    Conventions.
    - Text is [string]; every character is one code point below 256.
    - A pandas [Timestamp] at midnight is a calendar triple; the missing
      timestamp [NaT] is [None] in an [option Timestamp].
    - Numeric cells are rationals; a missing number ([NaN]) is [None]. No
      arithmetic is done on them but the subtraction of [ts.diff()], which
      is a parameter, since float64 rounds.
    - A raised exception is the [Raise] constructor of [result]. A
      statement that changes the table or writes a file gives its result
      together with the store it leaves, also when it raises.
    - What numpy, pandas and statsmodels compute enters as a parameter,
      except where their source decides a claim: the sorting kernel, the
      check of [pacf] on the number of lags. *)

From Stdlib Require Import ZArith QArith String Ascii DecimalString Bool Lia.
From Stdlib Require Import List Permutation Sorted.
Import ListNotations.
Local Open Scope Z_scope.

(** ** Text: the [str] and [re] operations the parser uses *)

Module Text.

Definition code (c : ascii) : Z := Z.of_nat (nat_of_ascii c).

Definition is_digit (c : ascii) : bool := (48 <=? code c) && (code c <=? 57).
Definition is_upper (c : ascii) : bool := (65 <=? code c) && (code c <=? 90).
Definition is_lower (c : ascii) : bool := (97 <=? code c) && (code c <=? 122).
Definition is_alpha (c : ascii) : bool := is_upper c || is_lower c.

(** [\s] on the code points modelled: tab to carriage return, the four
    separators 28 to 31, space, next line (133) and no-break space (160). *)
Definition is_space (c : ascii) : bool :=
  ((9 <=? code c) && (code c <=? 13))
  || ((28 <=? code c) && (code c <=? 32))
  || (code c =? 133) || (code c =? 160).

Definition lower (c : ascii) : ascii :=
  if is_upper c then ascii_of_nat (nat_of_ascii c + 32) else c.
Definition upper (c : ascii) : ascii :=
  if is_lower c then ascii_of_nat (nat_of_ascii c - 32) else c.

Definition digit_val (c : ascii) : Z := code c - 48.
Definition digit_char (d : Z) : ascii := ascii_of_nat (Z.to_nat (48 + d mod 10)).

Fixpoint map_str (f : ascii -> ascii) (s : string) : string :=
  match s with
  | EmptyString => EmptyString
  | String c r => String (f c) (map_str f r)
  end.

(** [str.title()]: a letter is upper-cased when the character before it is
    not a letter and lower-cased otherwise. *)
Fixpoint title_from (prev_cased : bool) (s : string) : string :=
  match s with
  | EmptyString => EmptyString
  | String c r =>
      if is_alpha c
      then String (if prev_cased then lower c else upper c) (title_from true r)
      else String c (title_from false r)
  end.
Definition title (s : string) : string := title_from false s.

(** [str.replace(old, "")] for a one-character [old]. *)
Fixpoint remove_char (x : ascii) (s : string) : string :=
  match s with
  | EmptyString => EmptyString
  | String c r => if Ascii.eqb c x then remove_char x r else String c (remove_char x r)
  end.

(** [pat in s]. *)
Fixpoint contains (pat s : string) : bool :=
  String.prefix pat s ||
  match s with
  | EmptyString => false
  | String _ r => contains pat r
  end.

(** The two regular expressions of the program are sequences of
    one-character classes; a pattern is the list of its classes. *)
Definition pattern := list (ascii -> bool).

(** [re.match(p, s)]: the matched text when [p] matches at the start. *)
Fixpoint re_match (p : pattern) (s : string) : option string :=
  match p with
  | [] => Some EmptyString
  | cls :: p' =>
      match s with
      | EmptyString => None
      | String c r =>
          if cls c
          then match re_match p' r with
               | Some m => Some (String c m)
               | None => None
               end
          else None
      end
  end.

(** [re.search(p, s)]: the leftmost match. *)
Fixpoint re_search (p : pattern) (s : string) : option string :=
  match re_match p s with
  | Some m => Some m
  | None =>
      match s with
      | EmptyString => None
      | String _ r => re_search p r
      end
  end.

Definition lit (x : ascii) : ascii -> bool := fun c => Ascii.eqb c x.

(** [r'\d{2}-\d{2}-\d{4}'] *)
Definition vintage_pattern : pattern :=
  [is_digit; is_digit; lit "-"; is_digit; is_digit; lit "-";
   is_digit; is_digit; is_digit; is_digit].

(** [r"\d{4} [A-Z]{3}"] *)
Definition monthly_pattern : pattern :=
  [is_digit; is_digit; is_digit; is_digit; lit " ";
   is_upper; is_upper; is_upper].

End Text.

(** ** Timestamps *)

Record Timestamp : Set := mkTs { year : Z; month : Z; day : Z }.

Module Ts.

Definition eqb (a b : Timestamp) : bool :=
  (year a =? year b) && (month a =? month b) && (day a =? day b).

Definition ltb (a b : Timestamp) : bool :=
  (year a <? year b)
  || ((year a =? year b)
      && ((month a <? month b) || ((month a =? month b) && (day a <? day b)))).

Definition leb (a b : Timestamp) : bool := negb (ltb b a).

Definition lt (a b : Timestamp) : Prop := ltb a b = true.
Definition le (a b : Timestamp) : Prop := leb a b = true.

Definition is_leap (y : Z) : bool :=
  ((y mod 4 =? 0) && negb (y mod 100 =? 0)) || (y mod 400 =? 0).

Definition days_in_month (y m : Z) : Z :=
  if m =? 2 then (if is_leap y then 29 else 28)
  else if (m =? 4) || (m =? 6) || (m =? 9) || (m =? 11) then 30
  else 31.

(** A date of the proleptic Gregorian calendar. *)
Definition calendar_ok (t : Timestamp) : bool :=
  (1 <=? month t) && (month t <=? 12)
  && (1 <=? day t) && (day t <=? days_in_month (year t) (month t)).

(** Months counted from year 0, and back to the first day of a month. *)
Definition month_index (t : Timestamp) : Z := 12 * year t + (month t - 1).
Definition of_month_index (i : Z) : Timestamp := mkTs (i / 12) (i mod 12 + 1) 1.

Definition is_month_start (t : Timestamp) : bool :=
  (day t =? 1) && (1 <=? month t) && (month t <=? 12).

(** The range of nanosecond-resolution timestamps,
    1677-09-21 00:12:43.145224193 to 2262-04-11 23:47:16.854775807,
    restricted to midnights. *)
Definition ns_bounds (t : Timestamp) : bool :=
  leb (mkTs 1677 9 22) t && leb t (mkTs 2262 4 11).

Definition month_abbr : list string :=
  ["Jan"; "Feb"; "Mar"; "Apr"; "May"; "Jun";
   "Jul"; "Aug"; "Sep"; "Oct"; "Nov"; "Dec"]%string.

Fixpoint index_of (x : string) (l : list string) (i : Z) : option Z :=
  match l with
  | [] => None
  | y :: r => if String.eqb x y then Some i else index_of x r (i + 1)
  end.

(** The month a [%b] field denotes; the directive ignores case. *)
Definition month_of_abbr (s : string) : option Z :=
  index_of (Text.map_str Text.lower s) (map (Text.map_str Text.lower) month_abbr) 1.

Definition two_digits (n : Z) : string :=
  String (Text.digit_char (n / 10)) (String (Text.digit_char n) EmptyString).
Definition four_digits (n : Z) : string :=
  String (Text.digit_char (n / 1000)) (String (Text.digit_char (n / 100))
    (String (Text.digit_char (n / 10)) (String (Text.digit_char n) EmptyString))).

(** [strftime("%d-%m-%Y")] and [strftime("%b %Y")]. *)
Definition strftime_dmY (t : Timestamp) : string :=
  (two_digits (day t) ++ "-" ++ two_digits (month t) ++ "-" ++ four_digits (year t))%string.
Definition strftime_bY (t : Timestamp) : string :=
  (nth (Z.to_nat (month t - 1)) month_abbr "" ++ " " ++ four_digits (year t))%string.

End Ts.

(** The order of [Ts.ltb], spelt out. *)
Definition lex_lt (a b : Timestamp) : Prop :=
  year a < year b
  \/ (year a = year b
      /\ (month a < month b \/ (month a = month b /\ day a < day b))).

(** ** Results of fallible calls *)

Inductive exn : Set :=
| ValueError (msg : string)
| IndexError.

Inductive result (A : Type) : Type :=
| Ok (a : A)
| Raise (e : exn).
Arguments Ok {A} a.
Arguments Raise {A} e.

(** ** Snapshots and observations *)

(** One row of [pd.read_csv(filepath, header=None, names=["RawDate", "Value"])]:
    the period label (missing when the cell is empty) and the text
    [astype(str)] gives for the value cell. *)
Record CsvRow : Set := mkRow { RawDate : option string; RawValue : string }.

(** A snapshot file as the program reads it: by line, for the release date,
    and as a two-column table, for the series. [Unreadable] is a file that
    [open] rejects; [table = None] is a file that [read_csv] rejects. *)
Inductive Snapshot : Set :=
| Unreadable
| File (lines : list string) (table : option (list CsvRow)).

Record Observation : Set :=
  mkObs { Date : Timestamp; Value : Q; Vintage : option Timestamp }.

(** The Revision Table, and every frame of the three columns. *)
Definition DataFrame := list Observation.

Module Strptime.
Import Text.

Definition num2 (a b : ascii) : Z := 10 * digit_val a + digit_val b.
Definition num4 (a b c d : ascii) : Z :=
  1000 * digit_val a + 100 * digit_val b + 10 * digit_val c + digit_val d.

(** Format ["%d-%m-%Y"], on the ten characters [vintage_pattern] matches:
    the fields as written, not yet checked against the calendar. *)
Definition fields_dmY (s : string) : option Timestamp :=
  match s with
  | String d1 (String d2 (String s1 (String m1 (String m2 (String s2
      (String y1 (String y2 (String y3 (String y4 EmptyString))))))))) =>
      if is_digit d1 && is_digit d2 && lit "-" s1 && is_digit m1 && is_digit m2
         && lit "-" s2 && is_digit y1 && is_digit y2 && is_digit y3 && is_digit y4
      then Some (mkTs (num4 y1 y2 y3 y4) (num2 m1 m2) (num2 d1 d2))
      else None
  | _ => None
  end.

Fixpoint skip_spaces (s : string) : string :=
  match s with
  | String c r => if is_space c then skip_spaces r else s
  | EmptyString => s
  end.

(** Format ["%Y %b"]: four digits, white space ([\s+]), a month
    abbreviation, and nothing after it. The day defaults to 1. *)
Definition fields_Yb (s : string) : option Timestamp :=
  match s with
  | String y1 (String y2 (String y3 (String y4 (String sp r)))) =>
      if is_digit y1 && is_digit y2 && is_digit y3 && is_digit y4 && is_space sp
      then match Ts.month_of_abbr (skip_spaces r) with
           | Some m => Some (mkTs (num4 y1 y2 y3 y4) m 1)
           | None => None
           end
      else None
  | _ => None
  end.

End Strptime.

(** ** The monthly period label, in the words of the specification *)

(** A label is monthly when it is a four-digit year, one space and a
    three-letter month abbreviation in capitals, and nothing else; the
    result is the year and the month it names. *)
Definition monthly_label (s : string) : option (Z * Z) :=
  match s with
  | String y1 (String y2 (String y3 (String y4 (String sp
      (String a (String b (String c EmptyString))))))) =>
      if Text.is_digit y1 && Text.is_digit y2 && Text.is_digit y3 && Text.is_digit y4
         && Text.lit " " sp
         && Text.is_upper a && Text.is_upper b && Text.is_upper c
      then match Ts.month_of_abbr (String a (String b (String c EmptyString))) with
           | Some m => Some (Strptime.num4 y1 y2 y3 y4, m)
           | None => None
           end
      else None
  | _ => None
  end.

(** ** The vintage parser and the consolidator ([VacanciesStructuring]) *)

Section Structuring.

(** The dates the [Timestamp] type can hold: [pd.to_datetime] raises on a
    date outside them ([Ts.ns_bounds] at nanosecond resolution). *)
Variable in_bounds : Timestamp -> bool.

(** [pd.to_numeric(text, errors="coerce")] on one cell: [None] is NaN. *)
Variable to_numeric : string -> option Q.

(** [pd.to_datetime(s, format="%d-%m-%Y")]; [None] when it raises. *)
Definition to_datetime_dmY (s : string) : option Timestamp :=
  match Strptime.fields_dmY s with
  | Some t => if Ts.calendar_ok t && in_bounds t then Some t else None
  | None => None
  end.

(** [pd.to_datetime(s, format="%Y %b", errors="coerce")]; [None] is NaT. *)
Definition to_datetime_Yb (s : string) : option Timestamp :=
  match Strptime.fields_Yb s with
  | Some t => if Ts.calendar_ok t && in_bounds t then Some t else None
  | None => None
  end.

(** The loop of [extract_vintage_date] over the lines of the file. A date
    that [to_datetime] rejects raises inside the [try]: the handler logs it
    and the function returns [NaT] without reading further lines. *)
Fixpoint scan_release_date (lines : list string) : option Timestamp :=
  match lines with
  | [] => None
  | line :: rest =>
      if Text.contains "Release date" line
      then match Text.re_search Text.vintage_pattern line with
           | Some m => to_datetime_dmY m
           | None => scan_release_date rest
           end
      else scan_release_date rest
  end.

Definition extract_vintage_date (f : Snapshot) : option Timestamp :=
  match f with
  | Unreadable => None
  | File lines _ => scan_release_date lines
  end.

(** [df["RawDate"].str.match(r"\d{4} [A-Z]{3}", na=False)] on one cell. *)
Definition str_match (cell : option string) : bool :=
  match cell with
  | Some s => match Text.re_match Text.monthly_pattern s with
              | Some _ => true
              | None => false
              end
  | None => false
  end.

Definition label (r : CsvRow) : string :=
  match RawDate r with Some s => s | None => EmptyString end.

Definition quote : ascii := ascii_of_nat 34.

(** The columns [Date], [Value] and [Vintage] computed for a retained row,
    then [dropna(subset=["Date", "Value"])]. *)
Definition columns (vintage : option Timestamp) (r : CsvRow)
  : option Timestamp * option Q * option Timestamp :=
  (to_datetime_Yb (Text.title (label r)),
   to_numeric (Text.remove_char quote (RawValue r)),
   vintage).

Definition dropna (c : option Timestamp * option Q * option Timestamp)
  : list Observation :=
  match c with
  | (Some d, Some v, vintage) => [mkObs d v vintage]
  | _ => []
  end.

Definition parse_monthly_series (f : Snapshot) : DataFrame :=
  let vintage := extract_vintage_date f in
  match f with
  | File _ (Some df) =>
      let df := filter (fun r => str_match (RawDate r)) df in
      let df := map (columns vintage) df in
      flat_map dropna df
  | _ => []
  end.

Definition empty (df : DataFrame) : bool :=
  match df with [] => true | _ => false end.

(** The loop of [consolidate_all_data] over [os.listdir(self.data_dir)]. *)
Definition collect (files : list Snapshot) : list DataFrame :=
  fold_left
    (fun dataframes file =>
       let df := parse_monthly_series file in
       if empty df then dataframes else dataframes ++ [df])
    files [].

Definition consolidate_all_data (files : list Snapshot) : result DataFrame :=
  match collect files with
  | [] => Raise (ValueError "No valid dataframes to consolidate.")
  | dataframes => Ok (concat dataframes)
  end.

(** What one row of the table contributes to the parsed series. *)
Definition retained (vintage : option Timestamp) (r : CsvRow) : list Observation :=
  if str_match (RawDate r) then dropna (columns vintage r) else [].

End Structuring.

(** ** The canonical series ([forecast_vacancies], first two statements) *)

(** [take(indexer)]: the rows at the given positions, in that order. *)
Definition take {A : Type} (l : list A) (indexer : list nat) : list A :=
  flat_map (fun i => match nth_error l i with Some x => [x] | None => [] end) indexer.

(** The order [sort_values] puts a column of timestamps in: missing values
    come last ([na_position="last"]). *)
Definition vintage_le (a b : option Timestamp) : Prop :=
  match a, b with
  | _, None => True
  | None, Some _ => False
  | Some x, Some y => Ts.le x y
  end.

Definition vintage_lt (a b : option Timestamp) : Prop :=
  match a, b with
  | Some x, Some y => Ts.lt x y
  | _, _ => False
  end.

(** Rows compared by vintage. *)
Definition by_vintage (o o' : Observation) : Prop :=
  vintage_le (Vintage o) (Vintage o').

(** The last row of a frame for one month. *)
Fixpoint last_of (m : Timestamp) (df : DataFrame) : option Observation :=
  match df with
  | [] => None
  | o :: rest =>
      match last_of m rest with
      | Some x => Some x
      | None => if Ts.eqb (Date o) m then Some o else None
      end
  end.

(** A time series: the index and the values, missing ones as [None]. *)
Definition Series := list (Timestamp * option Q).

Fixpoint Zseq (start : Z) (len : nat) : list Z :=
  match len with
  | O => []
  | S n => start :: Zseq (start + 1) n
  end.

Definition ts_min (l : list Timestamp) (d : Timestamp) : Timestamp :=
  fold_left (fun m t => if Ts.ltb t m then t else m) l d.
Definition ts_max (l : list Timestamp) (d : Timestamp) : Timestamp :=
  fold_left (fun m t => if Ts.ltb m t then t else m) l d.

(** [pd.date_range(start, end, freq="MS")]: the month starts from [start]
    rolled forward to [end] rolled back. *)
Definition date_range_MS (start stop : Timestamp) : list Timestamp :=
  let lo := if Ts.is_month_start start then Ts.month_index start
            else Ts.month_index start + 1 in
  let hi := Ts.month_index stop in
  map Ts.of_month_index (Zseq lo (Z.to_nat (hi - lo + 1))).

(** [pd.date_range(start, periods=n, freq="MS")]. *)
Definition date_range_periods_MS (start : Timestamp) (periods : nat) : list Timestamp :=
  let lo := if Ts.is_month_start start then Ts.month_index start
            else Ts.month_index start + 1 in
  map Ts.of_month_index (Zseq lo periods).

(** [t + pd.DateOffset(months=n)]: the same day [n] months on, or the last
    day of that month when it is shorter. *)
Definition add_months (t : Timestamp) (n : Z) : Timestamp :=
  let first := Ts.of_month_index (Ts.month_index t + n) in
  mkTs (year first) (month first)
       (Z.min (day t) (Ts.days_in_month (year first) (month first))).

Fixpoint has_duplicates (l : list Timestamp) : bool :=
  match l with
  | [] => false
  | t :: r => existsb (Ts.eqb t) r || has_duplicates r
  end.

(** [series.reindex(index)] on a series without repeated labels. *)
Definition lookup (s : list (Timestamp * Q)) (t : Timestamp) : option Q :=
  match find (fun e => Ts.eqb (fst e) t) s with
  | Some e => Some (snd e)
  | None => None
  end.

(** [series.asfreq("MS")]: an empty series stays empty; otherwise the
    series is reindexed on the month starts between its smallest and its
    largest label, which raises when a label is repeated. *)
Definition asfreq_MS (s : list (Timestamp * Q)) : result Series :=
  match map fst s with
  | [] => Ok []
  | t :: r =>
      if has_duplicates (t :: r)
      then Raise (ValueError "cannot reindex on an axis with duplicate labels")
      else Ok (map (fun g => (g, lookup s g))
                   (date_range_MS (ts_min r t) (ts_max r t)))
  end.

(** [groupby("Date").tail(1)]: of each group the last row, the rows kept in
    the order of the frame. *)
Fixpoint groupby_Date_tail1 (df : DataFrame) : DataFrame :=
  match df with
  | [] => []
  | o :: rest =>
      if existsb (fun o' => Ts.eqb (Date o') (Date o)) rest
      then groupby_Date_tail1 rest
      else o :: groupby_Date_tail1 rest
  end.

Section Canonical.

(** [numpy.argsort] of a column without missing values, for the sort kind
    [sort_values] defaults to ([kind="quicksort"]): the positions of the
    keys, smallest key first. *)
Variable argsort : list Timestamp -> list nat.

(** The rows with a known vintage, the key beside each. *)
Definition dated (df : DataFrame) : list (Timestamp * Observation) :=
  flat_map (fun o => match Vintage o with Some v => [(v, o)] | None => [] end) df.

Definition isna_Vintage (o : Observation) : bool :=
  match Vintage o with Some _ => false | None => true end.

(** [df.sort_values("Vintage")]: the rows with a vintage in the order
    [argsort] gives their keys, then the rows without one in the order of
    the frame. *)
Definition sort_values_Vintage (df : DataFrame) : DataFrame :=
  take (map snd (dated df)) (argsort (map fst (dated df)))
  ++ filter isna_Vintage df.

(** [df.sort_values("Date")]. *)
Definition sort_values_Date (df : DataFrame) : DataFrame :=
  take df (argsort (map Date df)).

(** [all_data.sort_values("Vintage").groupby("Date").tail(1).sort_values("Date")] *)
Definition latest_data (all_data : DataFrame) : DataFrame :=
  sort_values_Date (groupby_Date_tail1 (sort_values_Vintage all_data)).

(** [initial_script.py] builds the same frame from a table it has sorted
    by vintage once already
    ([all_data = all_data.sort_values("Vintage").reset_index(drop=True)]). *)
Definition latest_data_initial_script (all_data : DataFrame) : DataFrame :=
  latest_data (sort_values_Vintage all_data).

(** [latest_data.set_index("Date")["Value"].asfreq('MS')] *)
Definition ts (all_data : DataFrame) : result Series :=
  asfreq_MS (map (fun o => (Date o, Value o)) (latest_data all_data)).

(** The row of the canonical series' source for one month. *)
Definition selected (all_data : DataFrame) (m : Timestamp) : list Observation :=
  filter (fun o => Ts.eqb (Date o) m) (latest_data all_data).

End Canonical.

(** The contract of a sort: a permutation of the positions that puts the
    keys in order. Nothing is promised about equal keys. *)
Definition sorts (argsort : list Timestamp -> list nat) : Prop :=
  forall keys,
    Permutation (argsort keys) (seq 0 (length keys))
    /\ Sorted Ts.le (take keys (argsort keys)).

(** ** Sorting kernels *)

(** [kind="stable"]: insertion of each key before the first key of the
    sorted rest that is not smaller. *)
Module StableSort.

Fixpoint insert (k : Timestamp) (i : nat) (l : list (Timestamp * nat))
  : list (Timestamp * nat) :=
  match l with
  | [] => [(k, i)]
  | (k', j) :: r =>
      if Ts.leb k k' then (k, i) :: l else (k', j) :: insert k i r
  end.

Definition isort (l : list (Timestamp * nat)) : list (Timestamp * nat) :=
  fold_right (fun p acc => insert (fst p) (snd p) acc) [] l.

Definition argsort (keys : list Timestamp) : list nat :=
  map snd (isort (combine keys (seq 0 (length keys)))).

Definition key_le (p q : Timestamp * nat) : Prop := Ts.le (fst p) (fst q).

End StableSort.

(** [kind="quicksort"] as numpy implements it ([aquicksort_] of
    [npysort/quicksort.cpp]): median-of-three partitioning down to
    partitions of at most 16 elements, which are sorted by insertion; a
    partition met with the depth limit used up is sorted by heap sort
    ([aheapsort_] of [npysort/heapsort.cpp]). *)
Module Numpy.

Section Aquicksort.

Variable v : list Timestamp.

Definition key (i : nat) : Timestamp := nth i v (mkTs 0 0 0).
Definition get (a : list nat) (p : Z) : nat := nth (Z.to_nat p) a 0%nat.

Fixpoint set_nth (a : list nat) (n : nat) (x : nat) : list nat :=
  match a, n with
  | [], _ => []
  | _ :: r, O => x :: r
  | y :: r, S n' => y :: set_nth r n' x
  end.
Definition set (a : list nat) (p : Z) (x : nat) : list nat := set_nth a (Z.to_nat p) x.

(** [INTP_SWAP]: exchange the entries at [p] and [q]. *)
Definition swap (a : list nat) (p q : Z) : list nat :=
  set (set a p (get a q)) q (get a p).

(** Exchange the entries at [p] and [q] when the key at [p] is less. *)
Definition swap_if_less (a : list nat) (p q : Z) : list nat :=
  if Ts.ltb (key (get a p)) (key (get a q)) then swap a p q else a.

(** [do ++pi; while] the key at [pi] is less than the pivot [vp]. *)
Fixpoint scan_up (fuel : nat) (a : list nat) (vp : Timestamp) (pi : Z) : Z :=
  match fuel with
  | O => pi
  | S f =>
      let pi := pi + 1 in
      if Ts.ltb (key (get a pi)) vp then scan_up f a vp pi else pi
  end.

(** [do --pj; while] the pivot [vp] is less than the key at [pj]. *)
Fixpoint scan_down (fuel : nat) (a : list nat) (vp : Timestamp) (pj : Z) : Z :=
  match fuel with
  | O => pj
  | S f =>
      let pj := pj - 1 in
      if Ts.ltb vp (key (get a pj)) then scan_down f a vp pj else pj
  end.

(** The [for (;;)] loop of the partition. *)
Fixpoint exchange (fuel : nat) (a : list nat) (vp : Timestamp) (pi pj : Z)
  : list nat * Z :=
  match fuel with
  | O => (a, pi)
  | S f =>
      let pi := scan_up (length a) a vp pi in
      let pj := scan_down (length a) a vp pj in
      if pi >=? pj then (a, pi) else exchange f (swap a pi pj) vp pi pj
  end.

(** One partition of [pl .. pr]: the array after it and the pivot's place. *)
Definition partition (a : list nat) (pl pr : Z) : list nat * Z :=
  let pm := pl + Z.shiftr (pr - pl) 1 in
  let a := swap_if_less a pm pl in
  let a := swap_if_less a pr pm in
  let a := swap_if_less a pm pl in
  let vp := key (get a pm) in
  let pj := pr - 1 in
  let a := swap a pm pj in
  let '(a, pi) := exchange (length a) a vp pl pj in
  (swap a pi (pr - 1), pi).

(** [while (pj > pl] and [vp] is less than the key at [pj - 1]): move the
    entry at [pj - 1] up to [pj]. *)
Fixpoint shift (fuel : nat) (a : list nat) (vp : Timestamp) (pl pj : Z)
  : list nat * Z :=
  match fuel with
  | O => (a, pj)
  | S f =>
      if (pj >? pl) && Ts.ltb vp (key (get a (pj - 1)))
      then shift f (set a pj (get a (pj - 1))) vp pl (pj - 1)
      else (a, pj)
  end.

(** The insertion sort of [pl .. pr]. *)
Definition insertion (a : list nat) (pl pr : Z) : list nat :=
  fold_left
    (fun a pi =>
       let vi := get a pi in
       let '(a, pj) := shift (length a) a (key vi) pl pi in
       set a pj vi)
    (Zseq (pl + 1) (Z.to_nat (pr - pl))) a.

(** Partitions of more than 16 elements are split: [pr - pl], one less
    than the number of elements, is compared with this bound. *)
Definition SMALL_QUICKSORT : Z := 15.

(** Heap sort of the [n] entries from [pl] on. The heap is indexed from 1:
    its entry [k] is the entry [pl + k - 1] of the array. *)
Definition heap_get (a : list nat) (pl k : Z) : nat := get a (pl + k - 1).
Definition heap_set (a : list nat) (pl k : Z) (x : nat) : list nat :=
  set a (pl + k - 1) x.

(** The inner [for (i = .., j = 2 * i; j <= n;)]: entries move up until
    [tmp] is not less than the larger child; the place left for [tmp]. *)
Fixpoint sift (fuel : nat) (a : list nat) (pl n : Z) (tmp : nat) (i j : Z)
  : list nat * Z :=
  match fuel with
  | O => (a, i)
  | S f =>
      if j <=? n
      then
        let j := if (j <? n)
                    && Ts.ltb (key (heap_get a pl j)) (key (heap_get a pl (j + 1)))
                 then j + 1 else j in
        if Ts.ltb (key tmp) (key (heap_get a pl j))
        then sift f (heap_set a pl i (heap_get a pl j)) pl n tmp j (j + j)
        else (a, i)
      else (a, i)
  end.

Definition sift_down (a : list nat) (pl n : Z) (tmp : nat) (i : Z) : list nat :=
  let '(a, i) := sift (length a) a pl n tmp i (2 * i) in
  heap_set a pl i tmp.

(** [for (l = n >> 1; l > 0; --l)]: build the heap. *)
Definition heapify (a : list nat) (pl n : Z) : list nat :=
  fold_left (fun a l => sift_down a pl n (heap_get a pl l) l)
            (map (fun k => Z.shiftr n 1 - k) (Zseq 0 (Z.to_nat (Z.shiftr n 1)))) a.

(** [for (; n > 1;)]: the root goes to the end, the last entry is sifted
    down from the root of the heap that is left. *)
Fixpoint extract (fuel : nat) (a : list nat) (pl n : Z) : list nat :=
  match fuel with
  | O => a
  | S f =>
      if n >? 1
      then
        let tmp := heap_get a pl n in
        let a := heap_set a pl n (heap_get a pl 1) in
        let n := n - 1 in
        extract f (sift_down a pl n tmp 1) pl n
      else a
  end.

Definition aheapsort (a : list nat) (pl n : Z) : list nat :=
  extract (Z.to_nat n) (heapify a pl n) pl n.

(** [while ((pr - pl) > SMALL_QUICKSORT)]: partition, push the larger part
    with the depth left, continue with the smaller. *)
Fixpoint split (fuel : nat) (a : list nat) (pl pr : Z)
    (stack : list (Z * Z * Z)) (cdepth : Z)
  : list nat * Z * Z * list (Z * Z * Z) * Z :=
  match fuel with
  | O => (a, pl, pr, stack, cdepth)
  | S f =>
      if pr - pl >? SMALL_QUICKSORT
      then
        let '(a, pi) := partition a pl pr in
        let cdepth := cdepth - 1 in
        if pi - pl <? pr - pi
        then split f a pl (pi - 1) ((pi + 1, pr, cdepth) :: stack) cdepth
        else split f a (pi + 1) pr ((pl, pi - 1, cdepth) :: stack) cdepth
      else (a, pl, pr, stack, cdepth)
  end.

(** The outer [while (1)] with its explicit stack: one partition is taken
    from the stack at every turn, and there are fewer partitions than
    keys. *)
Fixpoint run (fuel : nat) (a : list nat) (pl pr : Z)
    (stack : list (Z * Z * Z)) (cdepth : Z) : option (list nat) :=
  match fuel with
  | O => None
  | S f =>
      let '(a, stack) :=
        if cdepth <? 0 then (aheapsort a pl (pr - pl + 1), stack)
        else
          let '(a, pl, pr, stack, _) := split (length a) a pl pr stack cdepth in
          (insertion a pl pr, stack) in
      match stack with
      | [] => Some a
      | (l, r, d) :: stack => run f a l r stack d
      end
  end.

End Aquicksort.

(** [np.argsort(keys, kind="quicksort")]. The turns of the outer loop are
    bounded by the number of keys; [None] stands for a loop that has not
    ended within them. *)
Definition aquicksort (keys : list Timestamp) : option (list nat) :=
  let num := length keys in
  run keys (S num) (seq 0 num) 0 (Z.of_nat num - 1) []
      (2 * Z.log2 (Z.of_nat num)).

Definition argsort (keys : list Timestamp) : list nat :=
  match aquicksort keys with
  | Some indexer => indexer
  | None => []
  end.

End Numpy.

(** ** The forecast table ([forecast_vacancies], from the fit on) *)

Definition bind {A B : Type} (r : result A) (k : A -> result B) : result B :=
  match r with
  | Ok a => k a
  | Raise e => Raise e
  end.

Notation "x <- r ;; k" := (bind r (fun x => k))
  (at level 61, r at next level, right associativity).

(** What [fitted.get_forecast(steps)] gives: [predicted_mean] and the rows
    of [conf_int()], lower bound first. *)
Record PredictionResults : Set :=
  mkPred { predicted_mean : list Q; conf_int : list (Q * Q) }.

Record ForecastRow : Set :=
  mkForecast { fDate : Timestamp; Forecast : Q; Lower : Q; Upper : Q }.


(** [ts.index[-1]] *)
Definition index_last (s : Series) : result Timestamp :=
  match rev s with
  | [] => Raise IndexError
  | (t, _) :: _ => Ok t
  end.

Fixpoint zip_rows (dates : list Timestamp) (forecast lower upper : list Q)
  : list ForecastRow :=
  match dates, forecast, lower, upper with
  | d :: dates, f :: forecast, l :: lower, u :: upper =>
      mkForecast d f l u :: zip_rows dates forecast lower upper
  | _, _, _, _ => []
  end.

(** [pd.DataFrame({"Date": .., "Forecast": .., "Lower": .., "Upper": ..})]:
    the four arrays must have one length. *)
Definition forecast_frame (dates : list Timestamp) (forecast lower upper : list Q)
  : result (list ForecastRow) :=
  if (length forecast =? length dates)%nat
     && (length lower =? length dates)%nat
     && (length upper =? length dates)%nat
  then Ok (zip_rows dates forecast lower upper)
  else Raise (ValueError "All arrays must be of the same length").

Section Forecast.

Variable argsort : list Timestamp -> list nat.

(** [adfuller(ts)], [acf] and [pacf] of the differenced series: the
    diagnostics that run before the fit, any of which may raise. They are
    spelled out as [diagnostics_before_fit] further on. *)
Variable diagnostics : Series -> result unit.

(** [ARIMA(ts, order=(1, 1, 1)).fit(cov_type="approx")], the Ljung-Box test
    on its residuals and [get_forecast(steps)]. *)
Variable fit_forecast : Series -> nat -> result PredictionResults.

Definition forecast_vacancies (all_data : DataFrame) (forecast_steps : nat)
  : result (list ForecastRow) :=
  ts <- ts argsort all_data ;;
  _ <- diagnostics ts ;;
  pred <- fit_forecast ts forecast_steps ;;
  last <- index_last ts ;;
  let forecast_dates := date_range_periods_MS (add_months last 1) forecast_steps in
  forecast_frame forecast_dates (predicted_mean pred)
                 (map fst (conf_int pred)) (map snd (conf_int pred)).

End Forecast.

(** ** Acquisition ([VacanciesAcquisition.download_csv_files]) *)

Module Acquisition.

(** [range(start, stop, -1)]: [start], [start - 1], .. down to [stop + 1]. *)
Definition range_down (start stop : Z) : list Z :=
  map (fun k => start - k) (Zseq 0 (Z.to_nat (start - stop))).

(** The text an integer has in an f-string. *)
Definition str (i : Z) : string := NilZero.string_of_int (Z.to_int i).

Definition URL (i : Z) : string :=
  ("https://www.ons.gov.uk/generator?format=csv&uri=/employmentandlabourmarket/peopleinwork/employmentandemployeetypes/timeseries/ap2y/lms/previous/v"
   ++ str i)%string.

Fixpoint ends_with (x : ascii) (s : string) : bool :=
  match s with
  | EmptyString => false
  | String c EmptyString => Ascii.eqb c x
  | String _ r => ends_with x r
  end.

(** [os.path.join(directory, name)] for a relative [name], POSIX rules. *)
Definition path_join (directory name : string) : string :=
  match directory with
  | EmptyString => name
  | _ => if ends_with "/" directory then (directory ++ name)%string
         else (directory ++ "/" ++ name)%string
  end.

Definition filename (data_dir : string) (i : Z) : string :=
  path_join data_dir ("v" ++ str i ++ ".csv")%string.

(** The outcome of the [try] block up to the write: the body of the
    response, or the exception that [requests.get], [raise_for_status] or
    the write raised, with its text. *)
Inductive Response : Set :=
| Content (body : string)
| Failed (why : string).

Inductive LogRecord : Set :=
| Info (msg : string)
| Warning (msg : string).

(** What the loop acts on: the files written (the latest write last), the
    log, the seconds slept and the addresses requested. *)
Record World : Set :=
  mkWorld { disk : list (string * string);
            log : list LogRecord;
            slept : Z;
            requested : list string }.

Section Download.

(** The outcome of the request for each vintage number. *)
Variable fetch : Z -> Response.

Variable data_dir : string.

(** The [try] statement for the vintage number [i]: the request, and the
    file and the log record that follow from its outcome. *)
Definition request (w : World) (i : Z) : World :=
  match fetch i with
  | Content body =>
      mkWorld (disk w ++ [(filename data_dir i, body)])
              (log w ++ [Info ("Downloaded v" ++ str i)%string])
              (slept w)
              (requested w ++ [URL i])
  | Failed why =>
      mkWorld (disk w)
              (log w ++ [Warning ("Failed to download v" ++ str i ++ ": " ++ why)%string])
              (slept w)
              (requested w ++ [URL i])
  end.

(** [time.sleep(secs)], which refuses a negative length. *)
Definition sleep (secs : Z) (w : World) : result unit * World :=
  if secs <? 0
  then (Raise (ValueError "sleep length must be non-negative"), w)
  else (Ok tt, mkWorld (disk w) (log w) (slept w + secs) (requested w)).

(** The body of the [for] loop for one vintage number [i]: the [try]
    statement, then the sleep, which no handler covers. *)
Definition attempt (delay_seconds : Z) (w : World) (i : Z) : result unit * World :=
  sleep delay_seconds (request w i).

(** [for i in ..]: an exception that leaves the body ends the loop. *)
Fixpoint for_each (delay_seconds : Z) (ids : list Z) (w : World)
  : result unit * World :=
  match ids with
  | [] => (Ok tt, w)
  | i :: rest =>
      match attempt delay_seconds w i with
      | (Ok _, w') => for_each delay_seconds rest w'
      | (Raise e, w') => (Raise e, w')
      end
  end.

Definition download_csv_files (start stop delay_seconds : Z) (w : World)
  : result unit * World :=
  for_each delay_seconds (range_down start (stop - 1)) w.

End Download.

End Acquisition.

(** ** The revision charts ([create_visualisations], from the first chart on) *)

(** [df.drop_duplicates("Date")]: of each date the first row. *)
Fixpoint drop_duplicates_from (seen : list Timestamp) (df : DataFrame) : DataFrame :=
  match df with
  | [] => []
  | o :: rest =>
      if existsb (Ts.eqb (Date o)) seen
      then drop_duplicates_from seen rest
      else o :: drop_duplicates_from (Date o :: seen) rest
  end.
Definition drop_duplicates_Date (df : DataFrame) : DataFrame :=
  drop_duplicates_from [] df.

(** [l.index(x)]: the first position of [x], or a [ValueError]. *)
Fixpoint list_index (x : Timestamp) (l : list Timestamp) : result nat :=
  match l with
  | [] => Raise (ValueError "Timestamp('2024-01-01 00:00:00') is not in list")
  | y :: r =>
      if Ts.eqb y x then Ok O
      else match list_index x r with
           | Ok n => Ok (S n)
           | Raise e => Raise e
           end
  end.

(** One [go.Scatter] of the dropdown chart and one button of its menu. *)
Record Trace : Set :=
  mkTrace { trace_x : list (option Timestamp); trace_y : list Q;
            trace_name : string; trace_visible : bool }.

Record Button : Set :=
  mkButton { button_label : string; button_visible : list bool;
             button_title : string }.

Record Dropdown : Set :=
  mkDropdown { traces : list Trace; buttons : list Button;
               active : nat; layout_title : string }.

Definition default_month : Timestamp := mkTs 2024 1 1.
Definition selected_month : Timestamp := mkTs 2024 2 1.

Section Charts.

Variable argsort : list Timestamp -> list nat.

(** [all_data[all_data["Date"] == date].sort_values("Vintage")] *)
Definition month_data (all_data : DataFrame) (date : Timestamp) : DataFrame :=
  sort_values_Vintage argsort (filter (fun o => Ts.eqb (Date o) date) all_data).

(** [all_data.drop_duplicates("Date").sort_values("Date")["Date"].tolist()] *)
Definition available_dates (all_data : DataFrame) : list Timestamp :=
  map Date (sort_values_Date argsort (drop_duplicates_Date all_data)).

(** The data of the interactive chart: a trace per month, a button per
    month, and the position of January 2024 among the months, which
    [available_dates.index(default_month)] looks up when the layout is
    set. *)
Definition dropdown_chart (all_data : DataFrame) : result Dropdown :=
  let dates := available_dates all_data in
  let traces :=
    map (fun date =>
           mkTrace (map Vintage (month_data all_data date))
                   (map Value (month_data all_data date))
                   (Ts.strftime_bY date)
                   (Ts.eqb date default_month)) dates in
  let buttons :=
    map (fun date =>
           mkButton (Ts.strftime_bY date)
                    (map (fun d => Ts.eqb d date) dates)
                    ("Revisions for " ++ Ts.strftime_bY date)%string) dates in
  active <- list_index default_month dates ;;
  Ok (mkDropdown traces buttons active
                 ("Revisions for " ++ Ts.strftime_bY default_month)%string).

(** The two charts: the revisions of February 2024 and the dropdown. *)
Definition revision_charts (all_data : DataFrame) : result (DataFrame * Dropdown) :=
  let selected_data := month_data all_data selected_month in
  dropdown <- dropdown_chart all_data ;;
  Ok (selected_data, dropdown).

End Charts.

(** ** The script: one frame, shared by the stages *)

(** The object [all_data]: the three columns of the consolidator and the
    text columns assigned to it later, by name. *)
Record Frame : Set :=
  mkFrame { rows : DataFrame; extra : list (string * list string) }.

Definition column_names (f : Frame) : list string :=
  ["Date"; "Value"; "Vintage"]%string ++ map fst (extra f).

(** [df[name] = cells]: replaces the column when it exists, appends it
    otherwise. *)
Definition assign (name : string) (cells : list string) (f : Frame) : Frame :=
  mkFrame (rows f)
    (if existsb (fun c => String.eqb (fst c) name) (extra f)
     then map (fun c => if String.eqb (fst c) name then (name, cells) else c) (extra f)
     else extra f ++ [(name, cells)]).

(** The store: the frames by reference, and the tables written to disk,
    the latest write last. *)
Record Store : Set :=
  mkStore { heap : list Frame; written : list (string * Frame) }.

Definition ref := nat.

(** A statement returns or raises, and either way leaves a store: what was
    assigned or written before an exception stays so. *)
Definition Script (A : Type) : Type := Store -> result A * Store.

Definition ret {A : Type} (a : A) : Script A := fun s => (Ok a, s).
Definition seq_bind {A B : Type} (m : Script A) (k : A -> Script B) : Script B :=
  fun s => match m s with
           | (Ok a, s') => k a s'
           | (Raise e, s') => (Raise e, s')
           end.
Definition lift {A : Type} (r : result A) : Script A := fun s => (r, s).

Notation "x <~ m ;; k" := (seq_bind m (fun x => k))
  (at level 61, m at next level, right associativity).

Definition alloc (f : Frame) : Script ref :=
  fun s => (Ok (length (heap s)), mkStore (heap s ++ [f]) (written s)).

Definition deref (r : ref) : Script Frame :=
  fun s => match nth_error (heap s) r with
           | Some f => (Ok f, s)
           | None => (Raise IndexError, s)
           end.

Fixpoint update {A : Type} (l : list A) (n : nat) (x : A) : list A :=
  match l, n with
  | [], _ => []
  | _ :: r, O => x :: r
  | y :: r, S n' => y :: update r n' x
  end.

(** [all_data[name] = cells]: the frame behind the reference changes. *)
Definition assign_column (r : ref) (name : string) (cells : list string)
  : Script unit :=
  fun s => match nth_error (heap s) r with
           | Some f => (Ok tt, mkStore (update (heap s) r (assign name cells f)) (written s))
           | None => (Raise IndexError, s)
           end.

(** [all_data.to_csv(path, index=False, sep=";", encoding="utf-8")] *)
Definition to_csv (r : ref) (path : string) : Script unit :=
  fun s => match nth_error (heap s) r with
           | Some f => (Ok tt, mkStore (heap s) (written s ++ [(path, f)]))
           | None => (Raise IndexError, s)
           end.

(** [all_data["Date"].dt.strftime("%b %Y")] *)
Definition MonthLabel (df : DataFrame) : list string :=
  map (fun o => Ts.strftime_bY (Date o)) df.

Section Visualisation.

Variable argsort : list Timestamp -> list nat.

(** [create_visualisations(all_data)]: the label column is added to the
    frame it is given, the frame is exported, and the two charts are built
    from filtered copies of it; the [ValueError] of the dropdown chart
    leaves the function. The result is the data of the charts (the Python
    function returns nothing; rendering and the HTML files are not
    modelled). *)
Definition create_visualisations (all_data : ref) : Script (DataFrame * Dropdown) :=
  df <~ deref all_data ;;
  _ <~ assign_column all_data "MonthLabel" (MonthLabel (rows df)) ;;
  _ <~ to_csv all_data "ONS_UK_Vacancies_Consolidated.csv" ;;
  df <~ deref all_data ;;
  lift (revision_charts argsort (rows df)).

End Visualisation.

(** ** The differenced series and the diagnostics before the fit *)

Section Differencing.

(** The subtraction of two cells, as float64 has it. *)
Variable minus : Q -> Q -> Q.

(** [ts.diff()]: each value less the one before it, missing when either is. *)
Fixpoint diff_from (prev : option Q) (s : Series) : Series :=
  match s with
  | [] => []
  | (t, v) :: r =>
      (t, match prev, v with
          | Some a, Some b => Some (minus b a)
          | _, _ => None
          end) :: diff_from v r
  end.
Definition diff (s : Series) : Series := diff_from None s.

(** [series.dropna()] *)
Definition dropna_values (s : Series) : list (Timestamp * Q) :=
  flat_map (fun e => match snd e with Some v => [(fst e, v)] | None => [] end) s.

(** [ts_diff = ts.diff().dropna()] *)
Definition ts_diff (s : Series) : list (Timestamp * Q) := dropna_values (diff s).

(** [adfuller(ts)] and [acf(x, nlags)], and what [pacf(x, nlags)] computes
    once it has admitted [nlags]. *)
Variable adfuller : Series -> result unit.
Variable acf : list (Timestamp * Q) -> nat -> result unit.
Variable pacf_values : list (Timestamp * Q) -> nat -> result unit.

(** [pacf(x, nlags)] of statsmodels ([tsa/stattools.py]): more lags than
    half the number of observations are refused before anything is
    computed. *)
Definition pacf (x : list (Timestamp * Q)) (nlags : nat) : result unit :=
  if (nlags <=? length x / 2)%nat
  then pacf_values x nlags
  else Raise (ValueError
    ("Can only compute partial correlations for lags up to 50% of the sample size. The requested nlags "
     ++ Acquisition.str (Z.of_nat nlags) ++ " must be < "
     ++ Acquisition.str (Z.of_nat (length x / 2)) ++ ".")%string).

(** The statements of [forecast_vacancies] between the series and the fit:
    the test on the series, then ACF and PACF of the differenced series up
    to lag 20. *)
Definition diagnostics_before_fit (ts : Series) : result unit :=
  _ <- adfuller ts ;;
  let ts_diff := ts_diff ts in
  _ <- acf ts_diff 20 ;;
  pacf ts_diff 20.

End Differencing.

(** ** The statements under [# Execution] *)

Section Execution.

Variable in_bounds : Timestamp -> bool.
Variable to_numeric : string -> option Q.
Variable argsort : list Timestamp -> list nat.
Variable diagnostics : Series -> result unit.
Variable fit_forecast : Series -> nat -> result PredictionResults.

(** The three statements that follow the download: the table is
    consolidated, handed to [create_visualisations], and the same object is
    then handed to [forecast_vacancies]. *)
Definition execution (files : list Snapshot) : Script (list ForecastRow) :=
  table <~ lift (consolidate_all_data in_bounds to_numeric files) ;;
  all_data <~ alloc (mkFrame table []) ;;
  _ <~ create_visualisations argsort all_data ;;
  df <~ deref all_data ;;
  lift (forecast_vacancies argsort diagnostics fit_forecast (rows df) 6).

End Execution.

(** ** Sample data *)

Module Sample.

(** A [to_numeric] for cells that hold an unsigned decimal integer. *)
Fixpoint digits_value (acc : Z) (s : string) : option Z :=
  match s with
  | EmptyString => Some acc
  | String c r =>
      if Text.is_digit c then digits_value (10 * acc + Text.digit_val c) r else None
  end.

Definition to_numeric (s : string) : option Q :=
  match s with
  | EmptyString => None
  | _ => match digits_value 0 s with
         | Some n => Some (inject_Z n)
         | None => None
         end
  end.

(** Two releases that both report January 2024, as 100 and then as 102. *)
Definition v1 : Snapshot :=
  File ["Title,Vacancies"; "Release date,10-01-2024"]%string
       (Some [mkRow (Some "Title"%string) "Vacancies";
              mkRow (Some "Release date"%string) "10-01-2024";
              mkRow (Some "2023 Q4"%string) "95";
              mkRow (Some "2024 JAN"%string) "100"]).

Definition v2 : Snapshot :=
  File ["Title,Vacancies"; "Release date,10-02-2024"]%string
       (Some [mkRow (Some "2024 JAN"%string) "102";
              mkRow (Some "2024 FEB"%string) "104"]).

(** A release without monthly rows, and one without a release date. *)
Definition quarterly_only : Snapshot :=
  File ["Release date,10-03-2024"]%string
       (Some [mkRow (Some "2024 Q1"%string) "99"]).

Definition undated : Snapshot :=
  File ["Title,Vacancies"]%string
       (Some [mkRow (Some "2024 JAN"%string) "77"]).

(** One release in which a month is reported twice. *)
Definition repeated_month : Snapshot :=
  File ["Release date,10-01-2024"]%string
       (Some [mkRow (Some "2024 JAN"%string) "100";
              mkRow (Some "2024 JAN"%string) "101"]).

(** One release of eighteen monthly rows, February 2023 reported twice. *)
Definition eighteen_rows : Snapshot :=
  File ["Release date,14-05-2024"]%string
       (Some [mkRow (Some "2023 JAN"%string) "100";
              mkRow (Some "2023 FEB"%string) "101";
              mkRow (Some "2023 FEB"%string) "102";
              mkRow (Some "2023 MAR"%string) "103";
              mkRow (Some "2023 APR"%string) "104";
              mkRow (Some "2023 MAY"%string) "105";
              mkRow (Some "2023 JUN"%string) "106";
              mkRow (Some "2023 JUL"%string) "107";
              mkRow (Some "2023 AUG"%string) "108";
              mkRow (Some "2023 SEP"%string) "109";
              mkRow (Some "2023 OCT"%string) "110";
              mkRow (Some "2023 NOV"%string) "111";
              mkRow (Some "2023 DEC"%string) "112";
              mkRow (Some "2024 JAN"%string) "113";
              mkRow (Some "2024 FEB"%string) "114";
              mkRow (Some "2024 MAR"%string) "115";
              mkRow (Some "2024 APR"%string) "116";
              mkRow (Some "2024 MAY"%string) "117"]).

Definition obs (y m : Z) (value : Z) (vintage : option Timestamp) : Observation :=
  mkObs (mkTs y m 1) (inject_Z value) vintage.

(** A fitted model for the examples: a flat forecast with a unit band.
    As [get_forecast] does, it refuses a horizon of no step. *)
Definition flat_forecast (s : Series) (steps : nat) : result PredictionResults :=
  match steps with
  | O => Raise (ValueError "Prediction must have `end` after `start`.")
  | _ => Ok (mkPred (repeat (inject_Z 100) steps)
                    (repeat (inject_Z 99, inject_Z 101) steps))
  end.

(** Diagnostics for the examples: the numerical parts let every series
    pass, so that only the check of [pacf] on the number of lags decides. *)
Definition diagnostics : Series -> result unit :=
  diagnostics_before_fit Qminus (fun _ => Ok tt) (fun _ _ => Ok tt) (fun _ _ => Ok tt).


Definition trend_series : Series :=
  map (fun i => (Ts.of_month_index (2022 * 12 + i), Some (inject_Z (100 + 2 * i))))
      (Zseq 0 24).

(** One release of forty-eight consecutive months, February 2020 to
    January 2024, and the Revision Table it gives. *)
Definition long_release : Snapshot :=
  File ["Title,Vacancies"; "Release date,13-02-2024"]%string
       (Some (map (fun i =>
                     let m := Ts.of_month_index (2020 * 12 + 1 + i) in
                     mkRow (Some (Ts.four_digits (year m) ++ " "
                                  ++ Text.map_str Text.upper
                                       (nth (Z.to_nat (month m - 1)) Ts.month_abbr
                                            EmptyString))%string)
                           (Acquisition.str (100 + 2 * i)))
                  (Zseq 0 48))).

Definition long_trend : DataFrame :=
  map (fun i => mkObs (Ts.of_month_index (2020 * 12 + 1 + i)) (inject_Z (100 + 2 * i))
                      (Some (mkTs 2024 2 13)))
      (Zseq 0 48).

(** A release that reports February 2024 alone. *)
Definition february_only : Snapshot :=
  File ["Release date,10-03-2024"]%string
       (Some [mkRow (Some "2024 FEB"%string) "104"]).

(** The Revision Table of the releases [v1] and [v2]. *)
Definition scenario_A : DataFrame :=
  [obs 2024 1 100 (Some (mkTs 2024 1 10));
   obs 2024 1 102 (Some (mkTs 2024 2 10));
   obs 2024 2 104 (Some (mkTs 2024 2 10))].

End Sample.

(** * Properties *)

(** ** The order on timestamps *)

Lemma ltb_lex a b : Ts.ltb a b = true <-> lex_lt a b.
Proof.
  unfold Ts.ltb, lex_lt.
  rewrite !orb_true_iff, !andb_true_iff, !orb_true_iff, !andb_true_iff,
    !Z.ltb_lt, !Z.eqb_eq.
  tauto.
Qed.

Lemma leb_lex a b : Ts.leb a b = true <-> ~ lex_lt b a.
Proof.
  unfold Ts.leb. rewrite negb_true_iff, <- not_true_iff_false, ltb_lex. tauto.
Qed.

Lemma ts_eqb_eq a b : Ts.eqb a b = true <-> a = b.
Proof.
  unfold Ts.eqb. rewrite !andb_true_iff, !Z.eqb_eq.
  destruct a, b; simpl. split.
  - intros [[-> ->] ->]. reflexivity.
  - intros H. injection H as -> -> ->. auto.
Qed.

Lemma ts_eqb_refl a : Ts.eqb a a = true.
Proof. apply ts_eqb_eq. reflexivity. Qed.

Lemma ts_eqb_sym a b : Ts.eqb a b = Ts.eqb b a.
Proof.
  destruct (Ts.eqb a b) eqn:E.
  - apply ts_eqb_eq in E. subst. symmetry. apply ts_eqb_refl.
  - destruct (Ts.eqb b a) eqn:E'; [|reflexivity].
    apply ts_eqb_eq in E'. subst. rewrite ts_eqb_refl in E. discriminate.
Qed.

Lemma ts_le_refl a : Ts.le a a.
Proof. apply leb_lex. unfold lex_lt. lia. Qed.

Lemma ts_le_trans a b c : Ts.le a b -> Ts.le b c -> Ts.le a c.
Proof. unfold Ts.le. rewrite !leb_lex. unfold lex_lt. lia. Qed.

Lemma ts_le_total a b : Ts.le a b \/ Ts.le b a.
Proof. unfold Ts.le. rewrite !leb_lex. unfold lex_lt. lia. Qed.

Lemma ts_lt_le a b : Ts.lt a b -> Ts.le a b.
Proof. unfold Ts.le, Ts.lt. rewrite leb_lex, ltb_lex. unfold lex_lt. lia. Qed.

Lemma ts_lt_not_le a b : Ts.lt a b -> ~ Ts.le b a.
Proof. unfold Ts.le, Ts.lt. rewrite leb_lex, ltb_lex. tauto. Qed.

Lemma ts_le_antisym a b : Ts.le a b -> Ts.le b a -> a = b.
Proof.
  unfold Ts.le. rewrite !leb_lex. unfold lex_lt. intros H1 H2.
  destruct a, b; simpl in *. f_equal; lia.
Qed.

Lemma ts_leb_false a b : Ts.leb a b = false -> Ts.le b a.
Proof.
  intros H. destruct (ts_le_total a b) as [H'|H']; [|exact H'].
  unfold Ts.le in H'. congruence.
Qed.

Lemma vintage_le_refl a : vintage_le a a.
Proof. destruct a; simpl; auto using ts_le_refl. Qed.

Lemma vintage_le_trans a b c : vintage_le a b -> vintage_le b c -> vintage_le a c.
Proof.
  destruct a, b, c; simpl; try tauto. apply ts_le_trans.
Qed.

Lemma vintage_lt_not_le a b : vintage_lt a b -> ~ vintage_le b a.
Proof.
  destruct a, b; simpl; try tauto. apply ts_lt_not_le.
Qed.

Lemma vintage_le_antisym a b : vintage_le a b -> vintage_le b a -> a = b.
Proof.
  destruct a, b; simpl; try tauto.
  intros H1 H2. f_equal. apply ts_le_antisym; assumption.
Qed.

(** ** [take] *)

Lemma take_app {A} (l : list A) i j : take l (i ++ j) = take l i ++ take l j.
Proof. unfold take. apply flat_map_app. Qed.

Lemma take_seq_from {A} (pre l : list A) :
  take (pre ++ l) (seq (length pre) (length l)) = l.
Proof.
  revert pre. induction l as [|x l IH]; intros pre; [reflexivity|].
  simpl. rewrite nth_error_app2, Nat.sub_diag by lia. simpl. f_equal.
  specialize (IH (pre ++ [x])).
  rewrite <- app_assoc, length_app in IH. simpl in IH.
  rewrite Nat.add_1_r in IH. exact IH.
Qed.

Lemma take_seq {A} (l : list A) : take l (seq 0 (length l)) = l.
Proof. apply (take_seq_from [] l). Qed.

Lemma take_perm {A} (l : list A) idx :
  Permutation idx (seq 0 (length l)) -> Permutation (take l idx) l.
Proof.
  intros H. rewrite <- (take_seq l) at 2.
  unfold take. apply Permutation_flat_map. exact H.
Qed.

Lemma map_take {A B} (f : A -> B) (l : list A) idx :
  map f (take l idx) = take (map f l) idx.
Proof.
  induction idx as [|i idx IH]; [reflexivity|].
  unfold take in *. simpl. rewrite map_app, IH. f_equal.
  rewrite nth_error_map. destruct (nth_error l i); reflexivity.
Qed.

(** ** Lists: filters, permutations and sorted lists *)

Lemma filter_perm {A} (f : A -> bool) l l' :
  Permutation l l' -> Permutation (filter f l) (filter f l').
Proof.
  induction 1 as [|x l l' _ IH|x y l|l l' l'' _ IH1 _ IH2]; simpl.
  - constructor.
  - destruct (f x); auto.
  - destruct (f x), (f y); auto. apply perm_swap.
  - eapply perm_trans; eassumption.
Qed.

Lemma filter_split_perm {A} (f : A -> bool) l :
  Permutation (filter (fun x => negb (f x)) l ++ filter f l) l.
Proof.
  induction l as [|x l IH]; simpl; [constructor|].
  destruct (f x); simpl.
  - apply Permutation_sym, Permutation_cons_app, Permutation_sym, IH.
  - constructor. exact IH.
Qed.

Lemma StronglySorted_app {A} (R : A -> A -> Prop) l1 l2 :
  StronglySorted R l1 -> StronglySorted R l2 ->
  (forall a b, In a l1 -> In b l2 -> R a b) ->
  StronglySorted R (l1 ++ l2).
Proof.
  induction 1 as [|a l1 Hs IH Hall]; intros H2 Hc; simpl; [exact H2|].
  constructor.
  - apply IH; [exact H2|]. intros x y Hx Hy. apply Hc; simpl; auto.
  - apply Forall_app. split; [exact Hall|].
    apply Forall_forall. intros y Hy. apply Hc; simpl; auto.
Qed.

Lemma last_of_In m df o : last_of m df = Some o -> In o df /\ Date o = m.
Proof.
  induction df as [|x r IH]; simpl; [discriminate|].
  destruct (last_of m r) as [y|].
  - intros [= ->]. destruct (IH eq_refl). auto.
  - destruct (Ts.eqb (Date x) m) eqn:E; [|discriminate].
    intros [= ->]. apply ts_eqb_eq in E. auto.
Qed.

Lemma last_of_None m df o : last_of m df = None -> In o df -> Date o <> m.
Proof.
  induction df as [|x r IH]; simpl; [tauto|].
  destruct (last_of m r) as [y|]; [discriminate|].
  destruct (Ts.eqb (Date x) m) eqn:E; [discriminate|].
  intros _ [<-|Hin]; [|auto].
  intros Heq. apply ts_eqb_eq in Heq. congruence.
Qed.

Lemma last_of_Some m df o :
  In o df -> Date o = m -> exists s, last_of m df = Some s.
Proof.
  intros Hin Hd. destruct (last_of m df) as [s|] eqn:E; [eauto|].
  exfalso. exact (last_of_None _ _ _ E Hin Hd).
Qed.

Lemma last_of_max (R : Observation -> Observation -> Prop) m df s :
  (forall o, R o o) -> StronglySorted R df -> last_of m df = Some s ->
  forall o, In o df -> Date o = m -> R o s.
Proof.
  intros Hrefl. induction 1 as [|x r Hs IH Hall]; simpl; [discriminate|].
  destruct (last_of m r) as [y|] eqn:E.
  - intros [= ->] o [<-|Hin] Hd.
    + rewrite Forall_forall in Hall. apply Hall. apply (last_of_In _ _ _ E).
    + apply IH; auto.
  - destruct (Ts.eqb (Date x) m); [|discriminate].
    intros [= ->] o [<-|Hin] Hd; [apply Hrefl|].
    exfalso. exact (last_of_None _ _ _ E Hin Hd).
Qed.

Lemma last_of_app_r m l1 l2 s : last_of m l2 = Some s -> last_of m (l1 ++ l2) = Some s.
Proof.
  intros H. induction l1 as [|x l1 IH]; simpl; [exact H|]. rewrite IH. reflexivity.
Qed.

Lemma existsb_same_Date o rest :
  existsb (fun o' => Ts.eqb (Date o') (Date o)) rest = true <->
  exists s, last_of (Date o) rest = Some s.
Proof.
  rewrite existsb_exists. split.
  - intros (x & Hin & E). apply ts_eqb_eq in E. eapply last_of_Some; eauto.
  - intros (s & E). apply last_of_In in E as [Hin Hd].
    exists s. split; [exact Hin|]. apply ts_eqb_eq. exact Hd.
Qed.

(** [groupby("Date").tail(1)] keeps of every month exactly its last row. *)
Lemma filter_groupby_tail1 m df :
  filter (fun o => Ts.eqb (Date o) m) (groupby_Date_tail1 df)
  = match last_of m df with Some s => [s] | None => [] end.
Proof.
  induction df as [|x r IH]; simpl; [reflexivity|].
  destruct (existsb (fun o' => Ts.eqb (Date o') (Date x)) r) eqn:Ex.
  - rewrite IH. destruct (last_of m r) as [y|] eqn:E; [reflexivity|].
    destruct (Ts.eqb (Date x) m) eqn:Em; [|reflexivity].
    apply ts_eqb_eq in Em. subst m.
    apply existsb_same_Date in Ex as (s & Hs). congruence.
  - simpl. rewrite IH. destruct (Ts.eqb (Date x) m) eqn:Em.
    + apply ts_eqb_eq in Em. subst m.
      destruct (last_of (Date x) r) as [y|] eqn:E; [|reflexivity].
      assert (existsb (fun o' => Ts.eqb (Date o') (Date x)) r = true)
        by (apply existsb_same_Date; eauto).
      congruence.
    + destruct (last_of m r); reflexivity.
Qed.

Lemma groupby_tail1_incl df o : In o (groupby_Date_tail1 df) -> In o df.
Proof.
  induction df as [|x r IH]; simpl; [tauto|].
  destruct (existsb _ r); simpl; intuition.
Qed.

Lemma groupby_tail1_unique df :
  has_duplicates (map Date (groupby_Date_tail1 df)) = false.
Proof.
  induction df as [|x r IH]; simpl; [reflexivity|].
  destruct (existsb (fun o' => Ts.eqb (Date o') (Date x)) r) eqn:Ex; [exact IH|].
  simpl. rewrite IH, orb_false_r.
  apply not_true_iff_false. intros H. apply not_true_iff_false in Ex. apply Ex.
  rewrite existsb_exists in *. destruct H as (t & Hin & E).
  apply in_map_iff in Hin as (o & <- & Hin). apply groupby_tail1_incl in Hin.
  exists o. split; [exact Hin|]. rewrite ts_eqb_sym. exact E.
Qed.

(** ** The sorted frame *)

Lemma dated_In df v o : In (v, o) (dated df) <-> In o df /\ Vintage o = Some v.
Proof.
  unfold dated. rewrite in_flat_map. split.
  - intros (x & Hin & Hx). destruct (Vintage x) eqn:E; simpl in Hx; [|tauto].
    destruct Hx as [[= <- <-]|[]]. auto.
  - intros [Hin E]. exists o. rewrite E. simpl. auto.
Qed.

Lemma dated_rows df :
  map snd (dated df) = filter (fun o => negb (isna_Vintage o)) df.
Proof.
  induction df as [|o df IH]; [reflexivity|].
  unfold dated, isna_Vintage in *. simpl.
  destruct (Vintage o); simpl; rewrite <- IH; reflexivity.
Qed.

Lemma sorted_pairs (ps : list (Timestamp * Observation)) :
  Forall (fun p => Vintage (snd p) = Some (fst p)) ps ->
  StronglySorted Ts.le (map fst ps) ->
  StronglySorted by_vintage (map snd ps).
Proof.
  induction 1 as [|p ps Hp Hall IH]; simpl; intros Hs; [constructor|].
  inversion Hs as [|? ? Hs' Hle]; subst. constructor; [auto|].
  apply Forall_forall. intros o Ho. apply in_map_iff in Ho as (q & <- & Hq).
  unfold by_vintage. rewrite Hp.
  rewrite Forall_forall in Hall. rewrite (Hall q Hq). simpl.
  rewrite Forall_forall in Hle. apply Hle. apply in_map. exact Hq.
Qed.

Lemma unknown_rows_sorted df :
  StronglySorted by_vintage (filter isna_Vintage df).
Proof.
  induction df as [|o df IH]; simpl; [constructor|].
  destruct (isna_Vintage o) eqn:E; [|exact IH].
  constructor; [exact IH|].
  apply Forall_forall. intros o' Ho'. apply filter_In in Ho' as [_ Ho'].
  unfold by_vintage, isna_Vintage in *. destruct (Vintage o'); [discriminate|].
  destruct (Vintage o); exact I.
Qed.

Section Sorted_frame.

Variable argsort : list Timestamp -> list nat.
Hypothesis argsort_sorts : sorts argsort.

Lemma sort_values_Vintage_perm df : Permutation (sort_values_Vintage argsort df) df.
Proof.
  unfold sort_values_Vintage.
  eapply perm_trans; [|apply (filter_split_perm isna_Vintage)].
  apply Permutation_app_tail. rewrite <- dated_rows.
  apply take_perm. rewrite length_map, <- (length_map fst).
  apply argsort_sorts.
Qed.

Lemma sort_values_Vintage_sorted df :
  StronglySorted by_vintage (sort_values_Vintage argsort df).
Proof.
  unfold sort_values_Vintage.
  set (idx := argsort (map fst (dated df))).
  assert (Hperm : Permutation (take (dated df) idx) (dated df)).
  { apply take_perm. rewrite <- (length_map fst). apply argsort_sorts. }
  apply StronglySorted_app.
  - rewrite <- map_take. apply sorted_pairs.
    + apply Forall_forall. intros [v o] Hin. simpl.
      apply (Permutation_in _ Hperm), dated_In in Hin. tauto.
    + rewrite map_take. apply Sorted_StronglySorted.
      * intros a b c. apply ts_le_trans.
      * apply argsort_sorts.
  - apply unknown_rows_sorted.
  - intros a b _ Hb. apply filter_In in Hb as [_ Hb].
    unfold by_vintage, isna_Vintage in *. destruct (Vintage b); [discriminate|].
    destruct (Vintage a); exact I.
Qed.

Lemma sort_values_Date_perm df : Permutation (sort_values_Date argsort df) df.
Proof.
  unfold sort_values_Date. apply take_perm.
  rewrite <- (length_map Date). apply argsort_sorts.
Qed.

Lemma latest_data_perm df :
  Permutation (latest_data argsort df)
              (groupby_Date_tail1 (sort_values_Vintage argsort df)).
Proof. apply sort_values_Date_perm. Qed.

(** The rows selected for a month: the last row of that month in the frame
    sorted by vintage, when the month occurs at all. *)
Lemma selected_last_of df m :
  selected argsort df m
  = match last_of m (sort_values_Vintage argsort df) with
    | Some s => [s]
    | None => []
    end.
Proof.
  unfold selected.
  pose proof (filter_perm (fun o => Ts.eqb (Date o) m) _ _ (latest_data_perm df)) as H.
  rewrite filter_groupby_tail1 in H.
  destruct (last_of m (sort_values_Vintage argsort df)).
  - apply Permutation_sym, Permutation_length_1_inv in H. exact H.
  - apply Permutation_sym, Permutation_nil in H. exact H.
Qed.

Lemma selected_max df o :
  In o df ->
  exists s, selected argsort df (Date o) = [s] /\ In s df /\ Date s = Date o
    /\ forall o', In o' df -> Date o' = Date o -> by_vintage o' s.
Proof.
  intros Hin. rewrite selected_last_of.
  pose proof (sort_values_Vintage_perm df) as Hperm.
  destruct (last_of_Some (Date o) (sort_values_Vintage argsort df) o) as (s & Hs);
    [apply (Permutation_in _ (Permutation_sym Hperm) Hin)|reflexivity|].
  rewrite Hs. exists s. split; [reflexivity|].
  destruct (last_of_In _ _ _ Hs) as [Hsin Hsd].
  split; [apply (Permutation_in _ Hperm Hsin)|]. split; [exact Hsd|].
  intros o' Ho' Hd'.
  apply (last_of_max by_vintage _ _ _ (fun x => vintage_le_refl _)
           (sort_values_Vintage_sorted df) Hs).
  - apply (Permutation_in _ (Permutation_sym Hperm) Ho').
  - exact Hd'.
Qed.

(** The linear script selects by the same rule. *)
Lemma selected_max_initial_script df o :
  In o df ->
  exists s,
    filter (fun x => Ts.eqb (Date x) (Date o)) (latest_data_initial_script argsort df) = [s]
    /\ In s df /\ Date s = Date o
    /\ forall o', In o' df -> Date o' = Date o -> by_vintage o' s.
Proof.
  intros Hin. pose proof (sort_values_Vintage_perm df) as Hperm.
  destruct (selected_max (sort_values_Vintage argsort df) o
              (Permutation_in _ (Permutation_sym Hperm) Hin))
    as (s & Hsel & Hs & Hd & Hmax).
  exists s. split; [exact Hsel|]. split; [exact (Permutation_in _ Hperm Hs)|].
  split; [exact Hd|]. intros o' Ho'. apply Hmax.
  exact (Permutation_in _ (Permutation_sym Hperm) Ho').
Qed.

(** Among the rows without a vintage the order of the frame is kept: the
    selected row, when it has no vintage, is the last such row of its month. *)
Lemma selected_unknown df o :
  In o df -> Vintage o = None ->
  exists s, selected argsort df (Date o) = [s]
    /\ last_of (Date o) (filter isna_Vintage df) = Some s.
Proof.
  intros Hin Hv. rewrite selected_last_of. unfold sort_values_Vintage.
  destruct (last_of_Some (Date o) (filter isna_Vintage df) o) as (s & Hs).
  - apply filter_In. split; [exact Hin|]. unfold isna_Vintage. rewrite Hv. reflexivity.
  - reflexivity.
  - exists s. rewrite (last_of_app_r _ _ _ _ Hs). auto.
Qed.

End Sorted_frame.

(** ** The stable kernel meets the contract *)

Module StableSortFacts.
Import StableSort.

Lemma insert_perm k i l : Permutation (insert k i l) ((k, i) :: l).
Proof.
  induction l as [|[k' j] l IH]; simpl; [auto|].
  destruct (Ts.leb k k'); [auto|].
  eapply perm_trans; [apply perm_skip, IH|apply perm_swap].
Qed.

Lemma isort_perm l : Permutation (isort l) l.
Proof.
  induction l as [|[k i] l IH]; simpl; [auto|].
  eapply perm_trans; [apply insert_perm|]. auto.
Qed.

Lemma insert_sorted k i l :
  StronglySorted key_le l -> StronglySorted key_le (insert k i l).
Proof.
  induction 1 as [|[k' j] l Hs IH Hall]; simpl.
  - repeat constructor.
  - destruct (Ts.leb k k') eqn:E.
    + constructor; [constructor; assumption|].
      constructor; [exact E|].
      eapply Forall_impl; [|exact Hall].
      intros q Hq. unfold key_le in *. simpl in *. eapply ts_le_trans; eassumption.
    + constructor; [exact IH|].
      apply (Permutation_Forall (Permutation_sym (insert_perm k i l))).
      constructor; [|exact Hall].
      unfold key_le. simpl. apply ts_leb_false. exact E.
Qed.

Lemma isort_sorted l : StronglySorted key_le (isort l).
Proof.
  induction l as [|[k i] l IH]; simpl; [constructor|].
  apply insert_sorted. exact IH.
Qed.

Lemma combine_seq_nth (pre keys : list Timestamp) :
  Forall (fun p => nth_error (pre ++ keys) (snd p) = Some (fst p))
         (combine keys (seq (length pre) (length keys))).
Proof.
  revert pre. induction keys as [|k keys IH]; intros pre; simpl; [constructor|].
  constructor.
  - simpl. rewrite nth_error_app2, Nat.sub_diag by lia. reflexivity.
  - specialize (IH (pre ++ [k])).
    rewrite <- app_assoc, length_app in IH. simpl in IH.
    rewrite Nat.add_1_r in IH. exact IH.
Qed.

Lemma take_pairs (keys : list Timestamp) ps :
  Forall (fun p => nth_error keys (snd p) = Some (fst p)) ps ->
  take keys (map snd ps) = map fst ps.
Proof.
  induction 1 as [|p ps Hp _ IH]; [reflexivity|].
  unfold take in *. simpl. rewrite Hp, IH. reflexivity.
Qed.

Lemma map_snd_combine_seq (keys : list Timestamp) n :
  map snd (combine keys (seq n (length keys))) = seq n (length keys).
Proof.
  revert n. induction keys as [|k keys IH]; intros n; simpl; [reflexivity|].
  rewrite IH. reflexivity.
Qed.

Lemma stable_argsort_sorts : sorts argsort.
Proof.
  intros keys. unfold argsort.
  set (ps := combine keys (seq 0 (length keys))).
  split.
  - rewrite <- (map_snd_combine_seq keys 0). apply Permutation_map, isort_perm.
  - rewrite take_pairs.
    + apply StronglySorted_Sorted.
      pose proof (isort_sorted ps) as H.
      induction H as [|p l _ IH Hall]; simpl; constructor; [exact IH|].
      apply Forall_forall. intros t Ht. apply in_map_iff in Ht as (q & <- & Hq).
      rewrite Forall_forall in Hall. apply (Hall q Hq).
    + apply (Permutation_Forall (Permutation_sym (isort_perm ps))).
      apply (combine_seq_nth [] keys).
Qed.

End StableSortFacts.

(** ** The parser and the consolidator, row by row *)

Section Structuring_facts.

Variable in_bounds : Timestamp -> bool.
Variable to_numeric : string -> option Q.

Local Abbreviation parse := (parse_monthly_series in_bounds to_numeric).
Local Abbreviation vintage_of := (extract_vintage_date in_bounds).

Lemma parse_rows lines df :
  parse (File lines (Some df))
  = flat_map (retained in_bounds to_numeric (vintage_of (File lines (Some df)))) df.
Proof.
  unfold parse_monthly_series, retained.
  generalize (vintage_of (File lines (Some df))). intros v.
  induction df as [|r df IH]; simpl; [reflexivity|].
  destruct (str_match (RawDate r)); simpl; rewrite IH; reflexivity.
Qed.

Lemma retained_Vintage v r o :
  In o (retained in_bounds to_numeric v r) -> Vintage o = v.
Proof.
  unfold retained, dropna, columns.
  destruct (str_match (RawDate r)); [|intros []].
  destruct (to_datetime_Yb in_bounds _); [|intros []].
  destruct (to_numeric _); [|intros []].
  intros [<-|[]]. reflexivity.
Qed.

Lemma parse_Vintage f o : In o (parse f) -> Vintage o = vintage_of f.
Proof.
  destruct f as [|lines [df|]]; try (simpl; tauto).
  rewrite parse_rows. rewrite in_flat_map. intros (r & _ & Hr).
  eapply retained_Vintage; eauto.
Qed.

Lemma collect_from acc files :
  fold_left
    (fun dataframes file =>
       let df := parse file in
       if empty df then dataframes else dataframes ++ [df])
    files acc
  = acc ++ filter (fun df => negb (empty df)) (map parse files).
Proof.
  revert acc. induction files as [|f files IH]; intros acc; simpl.
  - rewrite app_nil_r. reflexivity.
  - rewrite IH. destruct (empty (parse f)); simpl; [reflexivity|].
    rewrite <- app_assoc. reflexivity.
Qed.

Lemma collect_filter files :
  collect in_bounds to_numeric files
  = filter (fun df => negb (empty df)) (map parse files).
Proof. unfold collect. rewrite collect_from. reflexivity. Qed.

Lemma concat_nonempty (l : list DataFrame) :
  concat (filter (fun df => negb (empty df)) l) = concat l.
Proof.
  induction l as [|df l IH]; simpl; [reflexivity|].
  destruct df; simpl; rewrite IH; reflexivity.
Qed.

Lemma collect_nil files :
  collect in_bounds to_numeric files = [] <->
  forall f, In f files -> parse f = [].
Proof.
  rewrite collect_filter. induction files as [|f files IH]; simpl.
  - split; [intros _ f []|reflexivity].
  - destruct (parse f) eqn:E; simpl.
    + rewrite IH. split.
      * intros H g [<-|Hg]; auto.
      * intros H g Hg. apply H. auto.
    + split; [discriminate|]. intros H. specialize (H f (or_introl eq_refl)).
      congruence.
Qed.

Lemma consolidate_Ok files table :
  consolidate_all_data in_bounds to_numeric files = Ok table ->
  table = concat (map parse files) /\ table <> [].
Proof.
  unfold consolidate_all_data. rewrite collect_filter.
  pose proof (concat_nonempty (map parse files)) as Hc.
  destruct (filter _ (map parse files)) as [|d l] eqn:E; [discriminate|].
  intros H. injection H as <-. split; [exact Hc|].
  assert (Hd : In d (filter (fun df => negb (empty df)) (map parse files)))
    by (rewrite E; simpl; auto).
  apply filter_In in Hd as [_ Hd]. destruct d; [discriminate|]. discriminate.
Qed.

Lemma consolidate_In files table f o :
  consolidate_all_data in_bounds to_numeric files = Ok table ->
  In f files -> In o (parse f) -> In o table.
Proof.
  intros H Hf Ho. apply consolidate_Ok in H as [-> _].
  apply in_concat. exists (parse f). split; [|exact Ho].
  apply in_map. exact Hf.
Qed.

End Structuring_facts.

(** ** Selection of the canonical row *)

Lemma obs_eq_dec (a b : Observation) : {a = b} + {a <> b}.
Proof.
  repeat decide equality.
Qed.

(** C1 (as amended). For every sorting kernel that meets the contract of
    [sort_values] and every month reported in the Revision Table, the
    builder selects exactly one row [s] of that month, a row of the table
    whose vintage no row of the month exceeds (a missing vintage counting
    as the latest). A row whose vintage is strictly later than that of every
    other row of its month is therefore the one selected, whatever the
    kernel: with vintages V1 < V2 the row of V2 wins. When the latest
    vintage is shared, one of the rows sharing it is selected; it is the
    last of them in the order of the table when that vintage is missing. *)
Theorem latest_vintage_selected :
  forall argsort, sorts argsort ->
  forall (all_data : DataFrame) (o : Observation), In o all_data ->
  exists s,
    selected argsort all_data (Date o) = [s]
    /\ In s all_data /\ Date s = Date o
    /\ (forall o', In o' all_data -> Date o' = Date o ->
                   vintage_le (Vintage o') (Vintage s))
    /\ ((forall o', In o' all_data -> Date o' = Date o -> o' <> o ->
                    vintage_lt (Vintage o') (Vintage o)) -> s = o)
    /\ (Vintage s = None ->
        last_of (Date o) (filter isna_Vintage all_data) = Some s).
Proof.
  intros argsort Hsorts all_data o Hin.
  destruct (selected_max argsort Hsorts all_data o Hin) as (s & Hsel & Hs & Hd & Hmax).
  exists s. repeat split; try assumption.
  - intros Hstrict. destruct (obs_eq_dec s o) as [|Hne]; [assumption|].
    exfalso. apply (vintage_lt_not_le _ _ (Hstrict s Hs Hd Hne)).
    apply (Hmax o Hin eq_refl).
  - intros Hnone.
    destruct (selected_unknown argsort Hsorts all_data s Hs Hnone) as (s' & Hsel' & Hlast).
    rewrite Hd in Hsel', Hlast. rewrite Hsel in Hsel'.
    injection Hsel' as <-. exact Hlast.
Qed.

(** The two releases of scenario A: the table holds both rows for January
    2024 and the row of the later release is the one selected. *)
Lemma latest_vintage_selected_scenario_A :
  exists s,
    selected StableSort.argsort
      [Sample.obs 2024 1 100 (Some (mkTs 2024 1 10));
       Sample.obs 2024 1 102 (Some (mkTs 2024 2 10))]
      (mkTs 2024 1 1) = [s]
    /\ In s [Sample.obs 2024 1 100 (Some (mkTs 2024 1 10));
             Sample.obs 2024 1 102 (Some (mkTs 2024 2 10))]
    /\ Date s = mkTs 2024 1 1
    /\ (forall o', In o' [Sample.obs 2024 1 100 (Some (mkTs 2024 1 10));
                          Sample.obs 2024 1 102 (Some (mkTs 2024 2 10))] ->
                   Date o' = mkTs 2024 1 1 ->
                   vintage_le (Vintage o') (Vintage s))
    /\ ((forall o', In o' [Sample.obs 2024 1 100 (Some (mkTs 2024 1 10));
                           Sample.obs 2024 1 102 (Some (mkTs 2024 2 10))] ->
                    Date o' = mkTs 2024 1 1 ->
                    o' <> Sample.obs 2024 1 102 (Some (mkTs 2024 2 10)) ->
                    vintage_lt (Vintage o') (Some (mkTs 2024 2 10))) ->
        s = Sample.obs 2024 1 102 (Some (mkTs 2024 2 10)))
    /\ (Vintage s = None ->
        last_of (mkTs 2024 1 1)
          (filter isna_Vintage
             [Sample.obs 2024 1 100 (Some (mkTs 2024 1 10));
              Sample.obs 2024 1 102 (Some (mkTs 2024 2 10))]) = Some s).
Proof.
  apply (latest_vintage_selected StableSort.argsort
           StableSortFacts.stable_argsort_sorts
           [Sample.obs 2024 1 100 (Some (mkTs 2024 1 10));
            Sample.obs 2024 1 102 (Some (mkTs 2024 2 10))]
           (Sample.obs 2024 1 102 (Some (mkTs 2024 2 10)))).
  simpl. right. left. reflexivity.
Defined.

(** C1, the tie. One release of eighteen monthly rows reports February 2023
    twice, as 101 and then as 102, both under the vintage of the file. The
    quicksort kernel returns the positions
    0, 15, 14, .., 1, 16, 17: a permutation that sorts the (equal) keys but
    reverses rows 1 to 15, so the builder selects the row met first (101).
    A stable sort keeps the order met and selects the other row (102). *)
Lemma quicksort_tie_not_by_encounter_order :
  consolidate_all_data Ts.ns_bounds Sample.to_numeric [Sample.eighteen_rows]
  = Ok (map (fun r => Sample.obs (fst (fst r)) (snd (fst r)) (snd r)
                                 (Some (mkTs 2024 5 14)))
            [(2023, 1, 100); (2023, 2, 101); (2023, 2, 102); (2023, 3, 103);
             (2023, 4, 104); (2023, 5, 105); (2023, 6, 106); (2023, 7, 107);
             (2023, 8, 108); (2023, 9, 109); (2023, 10, 110); (2023, 11, 111);
             (2023, 12, 112); (2024, 1, 113); (2024, 2, 114); (2024, 3, 115);
             (2024, 4, 116); (2024, 5, 117)])
  /\ Numpy.aquicksort (repeat (mkTs 2024 5 14) 18)
     = Some [0; 15; 14; 13; 12; 11; 10; 9; 8; 7; 6; 5; 4; 3; 2; 1; 16; 17]%nat
  /\ (forall table,
        consolidate_all_data Ts.ns_bounds Sample.to_numeric [Sample.eighteen_rows]
        = Ok table ->
        selected Numpy.argsort table (mkTs 2023 2 1)
        = [Sample.obs 2023 2 101 (Some (mkTs 2024 5 14))]
        /\ selected StableSort.argsort table (mkTs 2023 2 1)
           = [Sample.obs 2023 2 102 (Some (mkTs 2024 5 14))]).
Proof.
  split; [vm_compute; reflexivity|].
  split; [vm_compute; reflexivity|].
  intros table H. vm_compute in H. injection H as <-.
  split; vm_compute; reflexivity.
Qed.

(** Forty keys on which the median of three is a poor pivot every time: the
    depth allowed, 2 * floor(log2 40) = 10 partitions, is used up on a
    partition of more than sixteen keys, which heap sort finishes. *)
Example quicksort_at_the_depth_limit :
  Numpy.aquicksort
    (map (fun y => mkTs (2000 + y) 1 1)
         [0; 20; 2; 23; 4; 39; 6; 37; 8; 38; 10; 36; 12; 35; 14; 34; 16; 33; 18;
          1; 3; 5; 7; 9; 11; 13; 15; 17; 19; 21; 31; 30; 29; 28; 27; 26; 25; 24;
          32; 22])
  = Some [0; 19; 2; 20; 4; 21; 6; 22; 8; 23; 10; 24; 12; 25; 14; 26; 16; 27; 18;
          28; 1; 29; 39; 3; 37; 36; 35; 34; 33; 32; 31; 30; 38; 17; 15; 13; 11;
          7; 9; 5]%nat
  /\ map year
         (take (map (fun y => mkTs (2000 + y) 1 1)
                    [0; 20; 2; 23; 4; 39; 6; 37; 8; 38; 10; 36; 12; 35; 14; 34; 16;
                     33; 18; 1; 3; 5; 7; 9; 11; 13; 15; 17; 19; 21; 31; 30; 29; 28;
                     27; 26; 25; 24; 32; 22])
               [0; 19; 2; 20; 4; 21; 6; 22; 8; 23; 10; 24; 12; 25; 14; 26; 16; 27;
                18; 28; 1; 29; 39; 3; 37; 36; 35; 34; 33; 32; 31; 30; 38; 17; 15;
                13; 11; 7; 9; 5]%nat)
     = Zseq 2000 40.
Proof. split; vm_compute; reflexivity. Qed.

Lemma take_incl {A} (l : list A) idx x : In x (take l idx) -> In x l.
Proof.
  unfold take. rewrite in_flat_map. intros (i & _ & Hi).
  destruct (nth_error l i) eqn:E; [|destruct Hi].
  destruct Hi as [<-|[]]. eapply nth_error_In; eauto.
Qed.

Lemma isna_filter_In df o : In o (filter isna_Vintage df) -> Vintage o = None.
Proof.
  intros H. apply filter_In in H as [_ H]. unfold isna_Vintage in H.
  destruct (Vintage o); [discriminate|reflexivity].
Qed.

(** C4. A snapshot whose release date cannot be read labels its
    observations with the missing timestamp; they stay in the Revision
    Table; sorting by vintage puts the rows without a vintage after every
    dated row; and for each month such a snapshot reports, the row selected
    into the canonical series is a row without a vintage (the last one of
    that month in the order of the table), whatever dated rows exist. *)
Theorem unknown_vintage_selected :
  forall in_bounds to_numeric argsort, sorts argsort ->
  forall files table f,
    consolidate_all_data in_bounds to_numeric files = Ok table ->
    In f files -> extract_vintage_date in_bounds f = None ->
  forall o, In o (parse_monthly_series in_bounds to_numeric f) ->
    Vintage o = None
    /\ In o table
    /\ (exists front,
          sort_values_Vintage argsort table = front ++ filter isna_Vintage table
          /\ Forall (fun d => Vintage d <> None) front)
    /\ exists s,
         selected argsort table (Date o) = [s]
         /\ Vintage s = None /\ In s table
         /\ last_of (Date o) (filter isna_Vintage table) = Some s.
Proof.
  intros in_bounds to_numeric argsort Hsorts files table f Hok Hf Hv o Ho.
  assert (Hvo : Vintage o = None)
    by (rewrite (parse_Vintage _ _ _ _ Ho); exact Hv).
  assert (Hin : In o table) by (eapply consolidate_In; eauto).
  split; [exact Hvo|]. split; [exact Hin|]. split.
  - eexists. split; [reflexivity|].
    apply Forall_forall. intros d Hd. apply take_incl in Hd.
    apply in_map_iff in Hd as ([v d'] & <- & Hd). apply dated_In in Hd as [_ Hd].
    simpl. congruence.
  - destruct (selected_unknown argsort Hsorts table o Hin Hvo) as (s & Hsel & Hlast).
    exists s. split; [exact Hsel|].
    destruct (last_of_In _ _ _ Hlast) as [Hs _].
    split; [exact (isna_filter_In _ _ Hs)|].
    split; [|exact Hlast]. apply filter_In in Hs. tauto.
Qed.

(** January 2024 is reported by a release without a date (77) and by the
    release of 10-01-2024 (100): the undated value is selected. *)
Lemma unknown_vintage_selected_sample :
  Vintage (Sample.obs 2024 1 77 None) = None
  /\ In (Sample.obs 2024 1 77 None)
        [Sample.obs 2024 1 77 None; Sample.obs 2024 1 100 (Some (mkTs 2024 1 10))]
  /\ (exists front,
        sort_values_Vintage StableSort.argsort
          [Sample.obs 2024 1 77 None; Sample.obs 2024 1 100 (Some (mkTs 2024 1 10))]
        = front ++ filter isna_Vintage
            [Sample.obs 2024 1 77 None; Sample.obs 2024 1 100 (Some (mkTs 2024 1 10))]
        /\ Forall (fun d => Vintage d <> None) front)
  /\ exists s,
       selected StableSort.argsort
         [Sample.obs 2024 1 77 None; Sample.obs 2024 1 100 (Some (mkTs 2024 1 10))]
         (mkTs 2024 1 1) = [s]
       /\ Vintage s = None
       /\ In s [Sample.obs 2024 1 77 None; Sample.obs 2024 1 100 (Some (mkTs 2024 1 10))]
       /\ last_of (mkTs 2024 1 1)
            (filter isna_Vintage
               [Sample.obs 2024 1 77 None;
                Sample.obs 2024 1 100 (Some (mkTs 2024 1 10))]) = Some s.
Proof.
  apply (unknown_vintage_selected Ts.ns_bounds Sample.to_numeric StableSort.argsort
           StableSortFacts.stable_argsort_sorts
           [Sample.undated; Sample.v1]
           [Sample.obs 2024 1 77 None; Sample.obs 2024 1 100 (Some (mkTs 2024 1 10))]
           Sample.undated).
  - vm_compute. reflexivity.
  - simpl. left. reflexivity.
  - vm_compute. reflexivity.
  - vm_compute. left. reflexivity.
Defined.

(** ** Consolidation *)

(** C3, the counterexample. A release that reports January 2024 twice puts
    two observations with one (month, vintage) pair in the Revision Table:
    neither is rejected and neither is dropped. *)
Lemma repeated_month_kept_twice :
  consolidate_all_data Ts.ns_bounds Sample.to_numeric [Sample.repeated_month]
  = Ok [Sample.obs 2024 1 100 (Some (mkTs 2024 1 10));
        Sample.obs 2024 1 101 (Some (mkTs 2024 1 10))]
  /\ ~ NoDup (map (fun o => (Date o, Vintage o))
                  [Sample.obs 2024 1 100 (Some (mkTs 2024 1 10));
                   Sample.obs 2024 1 101 (Some (mkTs 2024 1 10))]).
Proof.
  split; [vm_compute; reflexivity|].
  intros H. inversion H as [|x l Hnot _]; subst. apply Hnot. left. reflexivity.
Qed.

(** C3 (as amended). The Revision Table is the concatenation, in the order
    of the files and of their rows, of what every row yields: a row that
    passes the filter and both parses yields one observation under the
    vintage of its file, any other row none. Rows are never compared with
    one another, so a month reported twice in a file stays twice. *)
Theorem consolidation_keeps_every_row :
  forall in_bounds to_numeric files table,
    consolidate_all_data in_bounds to_numeric files = Ok table ->
    table = concat (map (parse_monthly_series in_bounds to_numeric) files)
    /\ (forall lines df,
          parse_monthly_series in_bounds to_numeric (File lines (Some df))
          = flat_map (retained in_bounds to_numeric
                        (extract_vintage_date in_bounds (File lines (Some df)))) df)
    /\ (forall v r, retained in_bounds to_numeric v r = []
                    \/ exists d x, retained in_bounds to_numeric v r = [mkObs d x v]).
Proof.
  intros in_bounds to_numeric files table H.
  split; [apply (consolidate_Ok _ _ _ _ H)|].
  split; [intros; apply parse_rows|].
  intros v r. unfold retained, dropna, columns.
  destruct (str_match (RawDate r)); [|auto].
  destruct (to_datetime_Yb in_bounds _); [|auto].
  destruct (to_numeric _); [|auto].
  right. eauto.
Qed.

Lemma consolidation_keeps_every_row_sample :
  [Sample.obs 2024 1 100 (Some (mkTs 2024 1 10));
   Sample.obs 2024 1 101 (Some (mkTs 2024 1 10))]
  = concat (map (parse_monthly_series Ts.ns_bounds Sample.to_numeric)
                [Sample.repeated_month])
  /\ (forall lines df,
        parse_monthly_series Ts.ns_bounds Sample.to_numeric (File lines (Some df))
        = flat_map (retained Ts.ns_bounds Sample.to_numeric
                      (extract_vintage_date Ts.ns_bounds (File lines (Some df)))) df)
  /\ (forall v r, retained Ts.ns_bounds Sample.to_numeric v r = []
                  \/ exists d x, retained Ts.ns_bounds Sample.to_numeric v r
                                 = [mkObs d x v]).
Proof.
  apply (consolidation_keeps_every_row Ts.ns_bounds Sample.to_numeric
           [Sample.repeated_month]).
  vm_compute. reflexivity.
Defined.

(** C7. Consolidation raises its "no data" error exactly when no file
    yields an observation. A file that yields none is left out of the list
    that is concatenated, and as soon as one file yields a row the call
    returns the concatenation of all parsed rows. *)
Theorem no_data_iff_nothing_parsed :
  forall in_bounds to_numeric files,
    (consolidate_all_data in_bounds to_numeric files
     = Raise (ValueError "No valid dataframes to consolidate.")
     <-> forall f, In f files -> parse_monthly_series in_bounds to_numeric f = [])
    /\ collect in_bounds to_numeric files
       = filter (fun df => negb (empty df))
                (map (parse_monthly_series in_bounds to_numeric) files)
    /\ ((exists f, In f files /\ parse_monthly_series in_bounds to_numeric f <> []) ->
        exists table,
          consolidate_all_data in_bounds to_numeric files = Ok table
          /\ table = concat (map (parse_monthly_series in_bounds to_numeric) files)
          /\ table <> []).
Proof.
  intros in_bounds to_numeric files.
  pose proof (collect_nil in_bounds to_numeric files) as Hnil.
  split; [|split].
  - unfold consolidate_all_data.
    destruct (collect in_bounds to_numeric files) as [|d l].
    + split; [intros _; apply Hnil; reflexivity|reflexivity].
    + split; [discriminate|]. intros H. apply Hnil in H. discriminate.
  - apply collect_filter.
  - intros (f & Hf & Hne).
    destruct (consolidate_all_data in_bounds to_numeric files) as [table|e] eqn:E.
    + exists table. split; [reflexivity|]. apply (consolidate_Ok _ _ _ _ E).
    + exfalso. unfold consolidate_all_data in E.
      destruct (collect in_bounds to_numeric files) as [|d l]; [|discriminate].
      apply Hne. apply Hnil; [reflexivity|exact Hf].
Qed.

(** A release with quarterly rows only gives no data on its own (the
    degenerate scenario) and is passed over beside a release that has
    monthly rows (scenario C). *)
Lemma no_data_iff_nothing_parsed_sample :
  consolidate_all_data Ts.ns_bounds Sample.to_numeric [Sample.quarterly_only]
  = Raise (ValueError "No valid dataframes to consolidate.")
  /\ exists table,
       consolidate_all_data Ts.ns_bounds Sample.to_numeric
         [Sample.quarterly_only; Sample.v1] = Ok table
       /\ table = concat (map (parse_monthly_series Ts.ns_bounds Sample.to_numeric)
                              [Sample.quarterly_only; Sample.v1])
       /\ table <> [].
Proof.
  split.
  - apply (proj2 (proj1 (no_data_iff_nothing_parsed Ts.ns_bounds Sample.to_numeric
                           [Sample.quarterly_only]))).
    intros f [<-|[]]. vm_compute. reflexivity.
  - apply (proj2 (proj2 (no_data_iff_nothing_parsed Ts.ns_bounds Sample.to_numeric
                           [Sample.quarterly_only; Sample.v1]))).
    exists Sample.v1. split; [simpl; auto|]. vm_compute. discriminate.
Defined.

(** ** The row filter of the parser *)

Lemma digit_not_alpha c : Text.is_digit c = true -> Text.is_alpha c = false.
Proof. destruct c as [[] [] [] [] [] [] [] []]; vm_compute; congruence. Qed.

Lemma upper_is_alpha c : Text.is_upper c = true -> Text.is_alpha c = true.
Proof. unfold Text.is_alpha. intros ->. reflexivity. Qed.

Lemma upper_not_space c : Text.is_upper c = true -> Text.is_space c = false.
Proof. destruct c as [[] [] [] [] [] [] [] []]; vm_compute; congruence. Qed.

Lemma upper_of_upper c : Text.is_upper c = true -> Text.upper c = c.
Proof. destruct c as [[] [] [] [] [] [] [] []]; vm_compute; congruence. Qed.

Lemma lower_idem c : Text.lower (Text.lower c) = Text.lower c.
Proof. destruct c as [[] [] [] [] [] [] [] []]; reflexivity. Qed.

Lemma lit_eq x c : Text.lit x c = true -> c = x.
Proof. unfold Text.lit. apply Ascii.eqb_eq. Qed.

Lemma index_of_In x l i m : Ts.index_of x l i = Some m -> In x l /\ i <= m < i + Z.of_nat (length l).
Proof.
  revert i. induction l as [|y l IH]; intros i; simpl; [discriminate|].
  destruct (String.eqb x y) eqn:E.
  - intros [= <-]. apply String.eqb_eq in E. split; [auto|lia].
  - intros H. apply IH in H as [H1 H2]. split; [auto|lia].
Qed.

Lemma month_of_abbr_range s m : Ts.month_of_abbr s = Some m -> 1 <= m <= 12.
Proof.
  unfold Ts.month_of_abbr. intros H. apply index_of_In in H as [_ H].
  simpl in H. lia.
Qed.

Lemma month_of_abbr_length s m :
  Ts.month_of_abbr s = Some m -> String.length s = 3%nat.
Proof.
  unfold Ts.month_of_abbr. intros H. apply index_of_In in H as [H _].
  assert (Hlen : forall f t, String.length (Text.map_str f t) = String.length t).
  { intros f t. induction t; simpl; congruence. }
  rewrite <- (Hlen Text.lower s).
  simpl in H. repeat (destruct H as [<-|H]; [reflexivity|]). destruct H.
Qed.

Lemma title_from_length b s : String.length (Text.title_from b s) = String.length s.
Proof.
  revert b. induction s as [|c s IH]; intros b; simpl; [reflexivity|].
  destruct (Text.is_alpha c); simpl; rewrite IH; reflexivity.
Qed.

Lemma month_start_calendar_ok y m :
  1 <= m <= 12 -> Ts.calendar_ok (mkTs y m 1) = true.
Proof.
  intros H. unfold Ts.calendar_ok, Ts.days_in_month. simpl.
  rewrite !andb_true_iff, !Z.leb_le.
  repeat split; try lia.
  destruct (m =? 2); [destruct (Ts.is_leap y); lia|].
  destruct ((m =? 4) || (m =? 6) || (m =? 9) || (m =? 11)); lia.
Qed.

(** The filter on the label followed by the date parse accepts exactly the
    monthly labels. *)
Lemma label_accepted in_bounds s :
  (if str_match (Some s) then to_datetime_Yb in_bounds (Text.title s) else None)
  = match monthly_label s with
    | Some (y, m) => if in_bounds (mkTs y m 1) then Some (mkTs y m 1) else None
    | None => None
    end.
Proof.
  destruct s as [|y1 [|y2 [|y3 [|y4 [|sp [|a [|b [|c rest]]]]]]]];
    try reflexivity;
    try (unfold str_match, Text.monthly_pattern, Text.re_match;
         repeat match goal with
                | |- context [Text.is_digit ?x] => destruct (Text.is_digit x)
                | |- context [Text.lit ?k ?x] => destruct (Text.lit k x)
                | |- context [Text.is_upper ?x] => destruct (Text.is_upper x)
                end; reflexivity).
  unfold str_match, monthly_label, Text.monthly_pattern, Text.re_match.
  destruct (Text.is_digit y1) eqn:D1; [|destruct rest; reflexivity].
  destruct (Text.is_digit y2) eqn:D2; [|destruct rest; reflexivity].
  destruct (Text.is_digit y3) eqn:D3; [|destruct rest; reflexivity].
  destruct (Text.is_digit y4) eqn:D4; [|destruct rest; reflexivity].
  destruct (Text.lit " " sp) eqn:Sp; [|destruct rest; reflexivity].
  destruct (Text.is_upper a) eqn:Ua; [|destruct rest; reflexivity].
  destruct (Text.is_upper b) eqn:Ub; [|destruct rest; reflexivity].
  destruct (Text.is_upper c) eqn:Uc; [|destruct rest; reflexivity].
  apply lit_eq in Sp. subst sp.
  unfold to_datetime_Yb, Text.title. simpl Text.title_from.
  rewrite (digit_not_alpha _ D1), (digit_not_alpha _ D2),
    (digit_not_alpha _ D3), (digit_not_alpha _ D4).
  change (Text.is_alpha " ") with false. cbv iota.
  rewrite (upper_is_alpha _ Ua), (upper_is_alpha _ Ub), (upper_is_alpha _ Uc).
  rewrite (upper_of_upper _ Ua).
  unfold Strptime.fields_Yb. rewrite D1, D2, D3, D4.
  change (Text.is_space " ") with true. simpl andb. cbv iota.
  simpl Strptime.skip_spaces. rewrite (upper_not_space _ Ua).
  set (tail := Text.title_from true rest).
  assert (Hlow :
    Ts.month_of_abbr (String a (String (Text.lower b) (String (Text.lower c) EmptyString)))
    = Ts.month_of_abbr (String a (String b (String c EmptyString)))).
  { unfold Ts.month_of_abbr. simpl Text.map_str. rewrite !lower_idem. reflexivity. }
  destruct rest as [|r rest].
  - subst tail. simpl Text.title_from. rewrite Hlow.
    destruct (Ts.month_of_abbr (String a (String b (String c EmptyString)))) as [m|] eqn:M;
      [|reflexivity].
    rewrite (month_start_calendar_ok _ m (month_of_abbr_range _ _ M)).
    reflexivity.
  - destruct (Ts.month_of_abbr
                (String a (String (Text.lower b) (String (Text.lower c) tail)))) as [m|] eqn:M;
      [|reflexivity].
    apply month_of_abbr_length in M. subst tail. simpl in M.
    destruct (Text.is_alpha r); simpl in M; discriminate.
Qed.

(** C5, the counterexample. The label "2024 jan" is a four-digit year and
    a month abbreviation, and the date parse would read it as January 2024
    whatever its case; the row is dropped all the same, because the filter
    wants capitals. A row with a monthly label and a value that is not a
    number is dropped too. *)
Lemma lower_case_label_dropped :
  to_datetime_Yb Ts.ns_bounds (Text.title "2024 jan") = Some (mkTs 2024 1 1)
  /\ retained Ts.ns_bounds Sample.to_numeric (Some (mkTs 2024 2 10))
       (mkRow (Some "2024 jan"%string) "100") = []
  /\ retained Ts.ns_bounds Sample.to_numeric (Some (mkTs 2024 2 10))
       (mkRow (Some "2024 Jan"%string) "100") = []
  /\ retained Ts.ns_bounds Sample.to_numeric (Some (mkTs 2024 2 10))
       (mkRow (Some "2024 JAN"%string) "n/a") = []
  /\ retained Ts.ns_bounds Sample.to_numeric (Some (mkTs 2024 2 10))
       (mkRow (Some "2024 JAN"%string) "100")
     = [Sample.obs 2024 1 100 (Some (mkTs 2024 2 10))].
Proof. repeat split; vm_compute; reflexivity. Qed.

(** C5 (as amended). The parsed series is made row by row, and a row is
    retained exactly when its period label is a four-digit year, one space
    and a three-letter month abbreviation in capitals (and nothing more),
    the month lies in the range of the timestamp type, and its value parses
    as a number; it then yields the first day of that month with that
    number. Every other row is excluded: a label in another case, a
    quarterly label such as "2024 Q1", a missing label, a value that is not
    a number. *)
Theorem retained_iff_monthly_label :
  forall in_bounds to_numeric,
    (forall lines df,
        parse_monthly_series in_bounds to_numeric (File lines (Some df))
        = flat_map (retained in_bounds to_numeric
                      (extract_vintage_date in_bounds (File lines (Some df)))) df)
    /\ (forall vintage r,
          retained in_bounds to_numeric vintage r
          = match RawDate r with
            | Some s =>
                match monthly_label s with
                | Some (y, m) =>
                    if in_bounds (mkTs y m 1)
                    then match to_numeric (Text.remove_char quote (RawValue r)) with
                         | Some x => [mkObs (mkTs y m 1) x vintage]
                         | None => []
                         end
                    else []
                | None => []
                end
            | None => []
            end).
Proof.
  intros in_bounds to_numeric. split; [intros; apply parse_rows|].
  intros vintage r.
  unfold retained, columns, dropna, label.
  destruct (RawDate r) as [s|]; [|reflexivity].
  pose proof (label_accepted in_bounds s) as H.
  destruct (str_match (Some s)).
  - rewrite H. destruct (monthly_label s) as [[y m]|]; [|reflexivity].
    destruct (in_bounds (mkTs y m 1)); reflexivity.
  - destruct (monthly_label s) as [[y m]|]; [|reflexivity].
    destruct (in_bounds (mkTs y m 1)); [discriminate|reflexivity].
Qed.

Example quarterly_label_not_monthly :
  monthly_label "2024 Q1" = None
  /\ monthly_label "2024 jan" = None
  /\ monthly_label "2024 JAN" = Some (2024, 1).
Proof. repeat split; vm_compute; reflexivity. Qed.

(** ** The release date *)

Lemma is_digit_char x : Text.is_digit (Text.digit_char x) = true.
Proof.
  unfold Text.is_digit, Text.digit_char, Text.code.
  rewrite nat_ascii_embedding by (pose proof (Z.mod_pos_bound x 10); lia).
  rewrite Z2Nat.id by (pose proof (Z.mod_pos_bound x 10); lia).
  pose proof (Z.mod_pos_bound x 10).
  apply andb_true_iff. rewrite !Z.leb_le. lia.
Qed.

Lemma digit_val_char x : Text.digit_val (Text.digit_char x) = x mod 10.
Proof.
  unfold Text.digit_val, Text.digit_char, Text.code.
  rewrite nat_ascii_embedding by (pose proof (Z.mod_pos_bound x 10); lia).
  rewrite Z2Nat.id by (pose proof (Z.mod_pos_bound x 10); lia).
  lia.
Qed.

Lemma re_match_written d after :
  Text.re_match Text.vintage_pattern (Ts.strftime_dmY d ++ after)%string
  = Some (Ts.strftime_dmY d).
Proof.
  unfold Ts.strftime_dmY, Ts.two_digits, Ts.four_digits, Text.vintage_pattern.
  simpl. rewrite !is_digit_char. reflexivity.
Qed.

Lemma num2_written n :
  0 <= n < 100 ->
  Strptime.num2 (Text.digit_char (n / 10)) (Text.digit_char n) = n.
Proof.
  intros H. unfold Strptime.num2. rewrite !digit_val_char.
  Z.div_mod_to_equations. lia.
Qed.

Lemma num4_written n :
  0 <= n < 10000 ->
  Strptime.num4 (Text.digit_char (n / 1000)) (Text.digit_char (n / 100))
                (Text.digit_char (n / 10)) (Text.digit_char n) = n.
Proof.
  intros H. unfold Strptime.num4. rewrite !digit_val_char.
  replace (n / 1000) with (n / 10 / 10 / 10) by (rewrite !Z.div_div by lia; reflexivity).
  replace (n / 100) with (n / 10 / 10) by (rewrite !Z.div_div by lia; reflexivity).
  Z.div_mod_to_equations. lia.
Qed.

Lemma fields_written d :
  0 <= day d < 100 -> 0 <= month d < 100 -> 0 <= year d < 10000 ->
  Strptime.fields_dmY (Ts.strftime_dmY d) = Some d.
Proof.
  intros Hd Hm Hy.
  unfold Ts.strftime_dmY, Ts.two_digits, Ts.four_digits.
  cbn -[Strptime.num4 Strptime.num2 Text.digit_char Text.is_digit].
  rewrite !is_digit_char.
  cbn -[Strptime.num4 Strptime.num2 Text.digit_char].
  rewrite num4_written, !num2_written by assumption.
  destruct d; reflexivity.
Qed.

Lemma calendar_ok_range d :
  Ts.calendar_ok d = true -> 1 <= month d <= 12 /\ 1 <= day d <= 31.
Proof.
  unfold Ts.calendar_ok, Ts.days_in_month.
  rewrite !andb_true_iff, !Z.leb_le. intros [[[H1 H2] H3] H4].
  split; [lia|]. split; [lia|].
  destruct (month d =? 2); [destruct (Ts.is_leap (year d)); lia|].
  destruct ((month d =? 4) || (month d =? 6) || (month d =? 9) || (month d =? 11)); lia.
Qed.

(** The date as written is read back. *)
Lemma to_datetime_written in_bounds d :
  Ts.calendar_ok d = true -> 0 <= year d <= 9999 -> in_bounds d = true ->
  to_datetime_dmY in_bounds (Ts.strftime_dmY d) = Some d.
Proof.
  intros Hc Hy Hb. unfold to_datetime_dmY.
  destruct (calendar_ok_range d Hc) as [Hm Hd].
  rewrite fields_written by lia. rewrite Hc, Hb. reflexivity.
Qed.

(** [re.search] returns the leftmost match. *)
Lemma re_search_leftmost p before m rest :
  (forall b1 c b2, before = (b1 ++ String c b2)%string ->
                   Text.re_match p (String c b2 ++ rest)%string = None) ->
  Text.re_match p rest = Some m ->
  Text.re_search p (before ++ rest)%string = Some m.
Proof.
  induction before as [|c before IH]; intros Hnone Hm; simpl.
  - destruct rest; simpl; rewrite Hm; reflexivity.
  - pose proof (Hnone EmptyString c before eq_refl) as H0. simpl in H0.
    change (String c (before ++ rest)%string) with (String c before ++ rest)%string.
    replace (Text.re_match p (String c before ++ rest)%string) with (@None string).
    apply IH; [|exact Hm].
    intros b1 c' b2 ->. apply (Hnone (String c b1) c' b2). reflexivity.
Qed.

Lemma scan_skips in_bounds pre rest :
  (forall l, In l pre ->
     Text.contains "Release date" l = false
     \/ Text.re_search Text.vintage_pattern l = None) ->
  scan_release_date in_bounds (pre ++ rest) = scan_release_date in_bounds rest.
Proof.
  induction pre as [|l pre IH]; intros H; simpl; [reflexivity|].
  destruct (H l (or_introl eq_refl)) as [-> | ->].
  - apply IH. intros; apply H; simpl; auto.
  - destruct (Text.contains "Release date" l); apply IH; intros; apply H; simpl; auto.
Qed.

(** C9. When the first line that carries both the marker "Release date"
    and a text matching the pattern has, as its leftmost match, a date [d]
    written DD-MM-YYYY, the vintage extracted is [d] itself. When every
    marker line has no match, or a leftmost match that is not a date the
    timestamp type holds, and when the file cannot be read, the vintage is
    the missing timestamp. *)
Theorem vintage_round_trip :
  forall in_bounds,
    (forall pre line post table before after d,
        (forall l, In l pre ->
           Text.contains "Release date" l = false
           \/ Text.re_search Text.vintage_pattern l = None) ->
        Text.contains "Release date" line = true ->
        line = (before ++ Ts.strftime_dmY d ++ after)%string ->
        (forall b1 c b2, before = (b1 ++ String c b2)%string ->
           Text.re_match Text.vintage_pattern
             (String c b2 ++ Ts.strftime_dmY d ++ after)%string = None) ->
        Ts.calendar_ok d = true -> 0 <= year d <= 9999 -> in_bounds d = true ->
        extract_vintage_date in_bounds (File (pre ++ line :: post) table) = Some d)
    /\ (forall lines table,
          (forall l m, In l lines ->
             Text.contains "Release date" l = true ->
             Text.re_search Text.vintage_pattern l = Some m ->
             to_datetime_dmY in_bounds m = None) ->
          extract_vintage_date in_bounds (File lines table) = None)
    /\ extract_vintage_date in_bounds Unreadable = None.
Proof.
  intros in_bounds. split; [|split; [|reflexivity]].
  - intros pre line post table before after d Hpre Hmark -> Hleft Hc Hy Hb.
    unfold extract_vintage_date. rewrite (scan_skips _ _ _ Hpre).
    cbn [scan_release_date]. rewrite Hmark.
    rewrite (re_search_leftmost _ _ (Ts.strftime_dmY d) _ Hleft (re_match_written d after)).
    apply to_datetime_written; assumption.
  - intros lines table H. simpl.
    induction lines as [|l lines IH]; simpl; [reflexivity|].
    assert (IH' : scan_release_date in_bounds lines = None)
      by (apply IH; intros l' m Hl'; apply H; simpl; auto).
    destruct (Text.contains "Release date" l) eqn:Hm; [|exact IH'].
    destruct (Text.re_search Text.vintage_pattern l) as [m|] eqn:Hs; [|exact IH'].
    apply (H l m); simpl; auto.
Qed.

(** The header of a release: the title line is passed over and the date on
    the marker line is read back as 10 January 2024. *)
Lemma vintage_round_trip_sample :
  extract_vintage_date Ts.ns_bounds
    (File (["Title,Vacancies"%string]
           ++ ("Release date," ++ Ts.strftime_dmY (mkTs 2024 1 10) ++ "")%string
           :: ["Next release,13 February 2024"%string]) None)
  = Some (mkTs 2024 1 10).
Proof.
  apply (proj1 (vintage_round_trip Ts.ns_bounds)
           ["Title,Vacancies"%string] _ _ None
           "Release date,"%string ""%string (mkTs 2024 1 10)).
  - intros l [<-|[]]. left. vm_compute. reflexivity.
  - vm_compute. reflexivity.
  - reflexivity.
  - intros b1 c b2 Hb.
    assert (Hlen : (String.length b1 + S (String.length b2))%nat = 13%nat).
    { change 13%nat with (String.length "Release date,").
      rewrite Hb. clear Hb. induction b1; simpl; [reflexivity|].
      rewrite <- IHb1. reflexivity. }
    repeat (destruct b1 as [|? b1];
            [simpl in Hb; injection Hb as <- <-; vm_compute; reflexivity
            |simpl in Hb; injection Hb as <- Hb; simpl in Hlen]).
    exfalso. simpl in Hlen. lia.
  - vm_compute. reflexivity.
  - simpl. lia.
  - vm_compute. reflexivity.
Defined.

(** ** The monthly grid *)

Lemma month_index_of i : Ts.month_index (Ts.of_month_index i) = i.
Proof.
  unfold Ts.month_index, Ts.of_month_index. cbn [year month day].
  Z.div_mod_to_equations. lia.
Qed.

Lemma of_month_index_start i : Ts.is_month_start (Ts.of_month_index i) = true.
Proof.
  unfold Ts.is_month_start, Ts.of_month_index. cbn [year month day].
  rewrite !andb_true_iff, !Z.leb_le. pose proof (Z.mod_pos_bound i 12). lia.
Qed.

Lemma month_start_range t :
  Ts.is_month_start t = true -> day t = 1 /\ 1 <= month t <= 12.
Proof.
  unfold Ts.is_month_start. rewrite !andb_true_iff, Z.eqb_eq, !Z.leb_le. lia.
Qed.

Lemma of_month_index_month t :
  Ts.is_month_start t = true -> Ts.of_month_index (Ts.month_index t) = t.
Proof.
  intros H. apply month_start_range in H as [Hd Hm].
  unfold Ts.month_index, Ts.of_month_index. destruct t as [y m d].
  cbn [year month day] in *. subst d. f_equal; Z.div_mod_to_equations; lia.
Qed.

Lemma month_start_le a b :
  Ts.is_month_start a = true -> Ts.is_month_start b = true ->
  (Ts.le a b <-> Ts.month_index a <= Ts.month_index b).
Proof.
  intros Ha Hb. apply month_start_range in Ha, Hb.
  unfold Ts.le. rewrite leb_lex. unfold lex_lt, Ts.month_index. lia.
Qed.

Lemma Zseq_length start n : length (Zseq start n) = n.
Proof. revert start. induction n; intros; simpl; [reflexivity|]. rewrite IHn. reflexivity. Qed.

Lemma Zseq_In start n x : In x (Zseq start n) <-> start <= x < start + Z.of_nat n.
Proof.
  revert start. induction n as [|n IH]; intros start; simpl Zseq.
  - simpl. lia.
  - simpl In. rewrite IH. lia.
Qed.

Lemma Zseq_snoc start n : Zseq start (S n) = Zseq start n ++ [start + Z.of_nat n].
Proof.
  revert start. induction n as [|n IH]; intros start.
  - simpl. f_equal. lia.
  - change (Zseq start (S (S n))) with (start :: Zseq (start + 1) (S n)).
    rewrite IH. simpl. do 3 f_equal. lia.
Qed.

Lemma ts_min_spec l d :
  In (ts_min l d) (d :: l) /\ forall t, In t (d :: l) -> Ts.le (ts_min l d) t.
Proof.
  unfold ts_min. revert d. induction l as [|x l IH]; intros d; simpl.
  - split; [auto|]. intros t [<-|[]]. apply ts_le_refl.
  - destruct (IH (if Ts.ltb x d then x else d)) as [Hin Hle].
    split.
    + destruct Hin as [Hin|Hin]; [|auto].
      rewrite <- Hin. destruct (Ts.ltb x d); auto.
    + intros t Ht.
      assert (Hm : Ts.le (if Ts.ltb x d then x else d) d
                   /\ Ts.le (if Ts.ltb x d then x else d) x).
      { destruct (Ts.ltb x d) eqn:E.
        - split; [apply ts_lt_le; exact E|apply ts_le_refl].
        - split; [apply ts_le_refl|]. unfold Ts.le, Ts.leb. rewrite E. reflexivity. }
      destruct Ht as [<-|[<-|Ht]].
      * eapply ts_le_trans; [apply Hle; left; reflexivity|apply Hm].
      * eapply ts_le_trans; [apply Hle; left; reflexivity|apply Hm].
      * apply Hle. right. exact Ht.
Qed.

Lemma ts_max_spec l d :
  In (ts_max l d) (d :: l) /\ forall t, In t (d :: l) -> Ts.le t (ts_max l d).
Proof.
  unfold ts_max. revert d. induction l as [|x l IH]; intros d; simpl.
  - split; [auto|]. intros t [<-|[]]. apply ts_le_refl.
  - destruct (IH (if Ts.ltb d x then x else d)) as [Hin Hle].
    split.
    + destruct Hin as [Hin|Hin]; [|auto].
      rewrite <- Hin. destruct (Ts.ltb d x); auto.
    + intros t Ht.
      assert (Hm : Ts.le d (if Ts.ltb d x then x else d)
                   /\ Ts.le x (if Ts.ltb d x then x else d)).
      { destruct (Ts.ltb d x) eqn:E.
        - split; [apply ts_lt_le; exact E|apply ts_le_refl].
        - split; [apply ts_le_refl|]. unfold Ts.le, Ts.leb. rewrite E. reflexivity. }
      destruct Ht as [<-|[<-|Ht]].
      * eapply ts_le_trans; [apply Hm|apply Hle; left; reflexivity].
      * eapply ts_le_trans; [apply Hm|apply Hle; left; reflexivity].
      * apply Hle. right. exact Ht.
Qed.

Lemma has_duplicates_NoDup l : has_duplicates l = false <-> NoDup l.
Proof.
  induction l as [|t l IH]; simpl.
  - split; [constructor|reflexivity].
  - rewrite orb_false_iff, IH. split.
    + intros [Hex Hnd]. constructor; [|exact Hnd].
      intros Hin. apply not_true_iff_false in Hex. apply Hex.
      apply existsb_exists. exists t. split; [exact Hin|apply ts_eqb_refl].
    + intros H. inversion H as [|? ? Hnot Hnd]; subst. split; [|exact Hnd].
      apply not_true_iff_false. intros Hex. apply existsb_exists in Hex as (x & Hx & E).
      apply ts_eqb_eq in E. subst. contradiction.
Qed.

Lemma lookup_Some s g x :
  lookup s g = Some x -> exists e, In e s /\ fst e = g /\ snd e = x.
Proof.
  unfold lookup. destruct (find _ s) as [e|] eqn:E; [|discriminate].
  intros [= <-]. apply find_some in E as [Hin He]. apply ts_eqb_eq in He. eauto.
Qed.

Lemma lookup_None s g e : lookup s g = None -> In e s -> fst e <> g.
Proof.
  unfold lookup. destruct (find _ s) as [e'|] eqn:E; [discriminate|].
  intros _ Hin Heq. pose proof (find_none _ _ E e Hin) as H. simpl in H.
  rewrite <- Heq, ts_eqb_refl in H. discriminate.
Qed.

(** [asfreq("MS")] on a non-empty series of month starts without repeated
    labels: the months from the first to the last, each with its value or
    with none. *)
Lemma asfreq_MS_grid (s : list (Timestamp * Q)) :
  s <> [] -> NoDup (map fst s) ->
  Forall (fun e => Ts.is_month_start (fst e) = true) s ->
  exists lo n,
    asfreq_MS s
    = Ok (map (fun g => (g, lookup s g)) (map Ts.of_month_index (Zseq lo (S n))))
    /\ (exists e, In e s /\ Ts.month_index (fst e) = lo)
    /\ (exists e, In e s /\ Ts.month_index (fst e) = lo + Z.of_nat n)
    /\ (forall e, In e s -> lo <= Ts.month_index (fst e) <= lo + Z.of_nat n).
Proof.
  intros Hne Hnd Hms. unfold asfreq_MS.
  destruct (map fst s) as [|t r] eqn:E; [destruct s; [congruence|discriminate]|].
  apply has_duplicates_NoDup in Hnd. rewrite Hnd.
  destruct (ts_min_spec r t) as [Hmin_in Hmin], (ts_max_spec r t) as [Hmax_in Hmax].
  set (lo := ts_min r t) in *. set (hi := ts_max r t) in *.
  assert (Hstart : forall x, In x (t :: r) -> Ts.is_month_start x = true).
  { intros x Hx. rewrite <- E in Hx. apply in_map_iff in Hx as (e & <- & He).
    rewrite Forall_forall in Hms. apply (Hms e He). }
  assert (Hle : Ts.month_index lo <= Ts.month_index hi).
  { apply month_start_le; auto. }
  exists (Ts.month_index lo), (Z.to_nat (Ts.month_index hi - Ts.month_index lo)).
  split; [|split; [|split]].
  - unfold date_range_MS. rewrite (Hstart lo Hmin_in).
    replace (Z.to_nat (Ts.month_index hi - Ts.month_index lo + 1))
      with (S (Z.to_nat (Ts.month_index hi - Ts.month_index lo))) by lia.
    reflexivity.
  - rewrite <- E in Hmin_in. apply in_map_iff in Hmin_in as (e & He & Hin).
    exists e. rewrite He. auto.
  - rewrite <- E in Hmax_in. apply in_map_iff in Hmax_in as (e & He & Hin).
    exists e. rewrite He. split; [exact Hin|]. lia.
  - intros e He.
    assert (Hx : In (fst e) (t :: r)) by (rewrite <- E; apply in_map; exact He).
    pose proof (proj1 (month_start_le _ _ (Hstart _ Hmin_in) (Hstart _ Hx)) (Hmin _ Hx)).
    pose proof (proj1 (month_start_le _ _ (Hstart _ Hx) (Hstart _ Hmax_in)) (Hmax _ Hx)).
    lia.
Qed.

(** ** The canonical series *)

Section Latest_rows.

Variable argsort : list Timestamp -> list nat.
Hypothesis argsort_sorts : sorts argsort.

Lemma latest_data_incl df o : In o (latest_data argsort df) -> In o df.
Proof.
  intros H.
  apply (Permutation_in _ (latest_data_perm argsort argsort_sorts df)) in H.
  apply groupby_tail1_incl in H.
  apply (Permutation_in _ (sort_values_Vintage_perm argsort argsort_sorts df) H).
Qed.

Lemma latest_data_NoDup df : NoDup (map Date (latest_data argsort df)).
Proof.
  apply (Permutation_NoDup
           (Permutation_map Date
              (Permutation_sym (latest_data_perm argsort argsort_sorts df)))).
  apply has_duplicates_NoDup, groupby_tail1_unique.
Qed.

Lemma latest_data_selected df o :
  In o (latest_data argsort df) -> selected argsort df (Date o) = [o].
Proof.
  intros H.
  destruct (selected_max argsort argsort_sorts df o (latest_data_incl df o H))
    as (s & Hsel & _).
  assert (Hin : In o (selected argsort df (Date o))).
  { unfold selected. apply filter_In. split; [exact H|apply ts_eqb_refl]. }
  rewrite Hsel in Hin. destruct Hin as [->|[]]. exact Hsel.
Qed.

Lemma latest_data_covers df o :
  In o df -> exists s, In s (latest_data argsort df) /\ Date s = Date o.
Proof.
  intros H.
  destruct (selected_max argsort argsort_sorts df o H) as (s & Hsel & _ & Hd & _).
  exists s. split; [|exact Hd].
  assert (Hin : In s (selected argsort df (Date o))) by (rewrite Hsel; simpl; auto).
  unfold selected in Hin. apply filter_In in Hin. tauto.
Qed.

End Latest_rows.

(** The canonical series of a non-empty table of month starts: the
    selected rows reindexed on the months from the earliest to the latest
    month reported. *)
Lemma ts_grid argsort (all_data : DataFrame) :
  sorts argsort -> all_data <> [] ->
  Forall (fun o => Ts.is_month_start (Date o) = true) all_data ->
  exists lo n,
    ts argsort all_data
    = Ok (map (fun g => (g, lookup (map (fun o => (Date o, Value o))
                                        (latest_data argsort all_data)) g))
              (map Ts.of_month_index (Zseq lo (S n))))
    /\ (exists o, In o all_data /\ Ts.month_index (Date o) = lo)
    /\ (exists o, In o all_data /\ Ts.month_index (Date o) = lo + Z.of_nat n)
    /\ (forall o, In o all_data -> lo <= Ts.month_index (Date o) <= lo + Z.of_nat n).
Proof.
  intros Hsorts Hne Hms.
  set (L := latest_data argsort all_data).
  set (S0 := map (fun o => (Date o, Value o)) L).
  assert (HL : L <> []).
  { destruct all_data as [|o r]; [congruence|].
    destruct (latest_data_covers argsort Hsorts (o :: r) o (or_introl eq_refl))
      as (s & Hs & _).
    fold L in Hs. destruct L; [destruct Hs|discriminate]. }
  assert (Hfst : map fst S0 = map Date L).
  { unfold S0. rewrite map_map. reflexivity. }
  destruct (asfreq_MS_grid S0) as (lo & n & Hts & (e1 & He1 & Hlo) & (e2 & He2 & Hhi) & Hall).
  - unfold S0. destruct L; [congruence|discriminate].
  - rewrite Hfst. apply latest_data_NoDup. exact Hsorts.
  - apply Forall_forall. intros e He. unfold S0 in He.
    apply in_map_iff in He as (o & <- & Ho). simpl.
    rewrite Forall_forall in Hms. apply Hms.
    apply (latest_data_incl argsort Hsorts _ _ Ho).
  - exists lo, n. split; [exact Hts|]. split; [|split].
    + unfold S0 in He1. apply in_map_iff in He1 as (o & <- & Ho).
      exists o. split; [apply (latest_data_incl argsort Hsorts _ _ Ho)|exact Hlo].
    + unfold S0 in He2. apply in_map_iff in He2 as (o & <- & Ho).
      exists o. split; [apply (latest_data_incl argsort Hsorts _ _ Ho)|exact Hhi].
    + intros o Ho.
      destruct (latest_data_covers argsort Hsorts all_data o Ho) as (s & Hs & Hd).
      rewrite <- Hd.
      apply (Hall (Date s, Value s)). unfold S0. apply in_map_iff. exists s. auto.
Qed.

Lemma map_fst_entries {V} (f : Timestamp -> V) (grid : list Timestamp) :
  map fst (map (fun g => (g, f g)) grid) = grid.
Proof. rewrite map_map. simpl. apply map_id. Qed.

(** C6. For a Revision Table that is not empty and whose months are month
    starts (as the parser produces them), the canonical series is built
    without error; its index is the list of all consecutive month starts
    from the earliest to the latest month reported, each exactly once; an
    entry holds the value of the row selected for its month, and a month
    that no observation reports is present with a missing value. *)
Theorem canonical_series_on_monthly_grid :
  forall argsort, sorts argsort ->
  forall all_data : DataFrame,
    all_data <> [] ->
    Forall (fun o => Ts.is_month_start (Date o) = true) all_data ->
  exists lo n s,
    ts argsort all_data = Ok s
    /\ map fst s = map Ts.of_month_index (Zseq lo (S n))
    /\ (exists o, In o all_data /\ Ts.month_index (Date o) = lo)
    /\ (exists o, In o all_data /\ Ts.month_index (Date o) = lo + Z.of_nat n)
    /\ (forall o, In o all_data -> lo <= Ts.month_index (Date o) <= lo + Z.of_nat n)
    /\ (forall g v, In (g, v) s ->
          match v with
          | Some x => exists o, selected argsort all_data g = [o] /\ Value o = x
          | None => forall o, In o all_data -> Date o <> g
          end).
Proof.
  intros argsort Hsorts all_data Hne Hms.
  destruct (ts_grid argsort all_data Hsorts Hne Hms) as (lo & n & Hts & Hlo & Hhi & Hall).
  exists lo, n. eexists. split; [exact Hts|].
  split; [apply map_fst_entries|]. split; [exact Hlo|]. split; [exact Hhi|].
  split; [exact Hall|].
  intros g v Hin. apply in_map_iff in Hin as (g' & [= <- <-] & _).
  set (S0 := map (fun o => (Date o, Value o)) (latest_data argsort all_data)).
  destruct (lookup S0 g') as [x|] eqn:Hl.
  - apply lookup_Some in Hl as (e & He & Hg & Hx).
    unfold S0 in He. apply in_map_iff in He as (o & <- & Ho).
    simpl in Hg, Hx. exists o. split; [|exact Hx].
    rewrite <- Hg. apply (latest_data_selected argsort Hsorts). exact Ho.
  - intros o Ho Hd.
    destruct (latest_data_covers argsort Hsorts all_data o Ho) as (s & Hs & Hds).
    apply (lookup_None S0 g' (Date s, Value s) Hl).
    + unfold S0. apply in_map_iff. exists s. auto.
    + simpl. congruence.
Qed.

(** January and March 2024 are reported, February is not: the series has
    the three months, February with no value. *)
Lemma canonical_series_on_monthly_grid_sample :
  exists lo n s,
    ts StableSort.argsort
       [Sample.obs 2024 3 104 (Some (mkTs 2024 4 10));
        Sample.obs 2024 1 100 (Some (mkTs 2024 2 10))] = Ok s
    /\ map fst s = map Ts.of_month_index (Zseq lo (S n))
    /\ (exists o, In o [Sample.obs 2024 3 104 (Some (mkTs 2024 4 10));
                        Sample.obs 2024 1 100 (Some (mkTs 2024 2 10))]
                  /\ Ts.month_index (Date o) = lo)
    /\ (exists o, In o [Sample.obs 2024 3 104 (Some (mkTs 2024 4 10));
                        Sample.obs 2024 1 100 (Some (mkTs 2024 2 10))]
                  /\ Ts.month_index (Date o) = lo + Z.of_nat n)
    /\ (forall o, In o [Sample.obs 2024 3 104 (Some (mkTs 2024 4 10));
                        Sample.obs 2024 1 100 (Some (mkTs 2024 2 10))] ->
                  lo <= Ts.month_index (Date o) <= lo + Z.of_nat n)
    /\ (forall g v, In (g, v) s ->
          match v with
          | Some x =>
              exists o,
                selected StableSort.argsort
                  [Sample.obs 2024 3 104 (Some (mkTs 2024 4 10));
                   Sample.obs 2024 1 100 (Some (mkTs 2024 2 10))] g = [o]
                /\ Value o = x
          | None =>
              forall o, In o [Sample.obs 2024 3 104 (Some (mkTs 2024 4 10));
                              Sample.obs 2024 1 100 (Some (mkTs 2024 2 10))] ->
                        Date o <> g
          end).
Proof.
  apply (canonical_series_on_monthly_grid StableSort.argsort
           StableSortFacts.stable_argsort_sorts
           [Sample.obs 2024 3 104 (Some (mkTs 2024 4 10));
            Sample.obs 2024 1 100 (Some (mkTs 2024 2 10))]).
  - discriminate.
  - repeat constructor.
Defined.

Example series_with_gap :
  ts StableSort.argsort
     [Sample.obs 2024 3 104 (Some (mkTs 2024 4 10));
      Sample.obs 2024 1 100 (Some (mkTs 2024 2 10))]
  = Ok [(mkTs 2024 1 1, Some (inject_Z 100));
        (mkTs 2024 2 1, None);
        (mkTs 2024 3 1, Some (inject_Z 104))].
Proof. vm_compute. reflexivity. Qed.

(** Every observation the parser produces is dated on a month start. *)
Lemma to_datetime_Yb_month_start in_bounds s d :
  to_datetime_Yb in_bounds s = Some d -> Ts.is_month_start d = true.
Proof.
  unfold to_datetime_Yb, Strptime.fields_Yb.
  destruct s as [|y1 [|y2 [|y3 [|y4 [|sp r]]]]]; try discriminate.
  destruct (_ && _); [|discriminate].
  destruct (Ts.month_of_abbr _) as [m|] eqn:M; [|discriminate].
  destruct (_ && _); [|discriminate].
  intros [= <-]. apply month_of_abbr_range in M.
  unfold Ts.is_month_start. cbn [year month day].
  rewrite !andb_true_iff, !Z.leb_le, Z.eqb_eq. lia.
Qed.

Lemma parsed_month_start in_bounds to_numeric f o :
  In o (parse_monthly_series in_bounds to_numeric f) ->
  Ts.is_month_start (Date o) = true.
Proof.
  destruct f as [|lines [df|]]; try (simpl; tauto).
  rewrite parse_rows, in_flat_map. intros (r & _ & Hr).
  unfold retained, dropna, columns in Hr.
  destruct (str_match (RawDate r)); [|destruct Hr].
  destruct (to_datetime_Yb in_bounds _) as [d|] eqn:E; [|destruct Hr].
  destruct (to_numeric _); [|destruct Hr].
  destruct Hr as [<-|[]]. simpl. eapply to_datetime_Yb_month_start; eauto.
Qed.

(** What the consolidator returns is not empty and dated on month starts. *)
Lemma consolidated_month_starts in_bounds to_numeric files table :
  consolidate_all_data in_bounds to_numeric files = Ok table ->
  table <> [] /\ Forall (fun o => Ts.is_month_start (Date o) = true) table.
Proof.
  intros H. apply consolidate_Ok in H as [-> Hne]. split; [exact Hne|].
  apply Forall_forall. intros o Ho. apply in_concat in Ho as (df & Hdf & Ho).
  apply in_map_iff in Hdf as (f & <- & _). eapply parsed_month_start; eauto.
Qed.

(** ** The forecast table *)

Lemma index_last_grid (s : Series) lo n :
  map fst s = map Ts.of_month_index (Zseq lo (S n)) ->
  index_last s = Ok (Ts.of_month_index (lo + Z.of_nat n)).
Proof.
  intros H. unfold index_last.
  assert (Hrev : map fst (rev s) = Ts.of_month_index (lo + Z.of_nat n)
                                   :: rev (map Ts.of_month_index (Zseq lo n))).
  { rewrite map_rev, H, Zseq_snoc, map_app, rev_app_distr. reflexivity. }
  destruct (rev s) as [|[t v] r]; [discriminate|].
  simpl in Hrev. injection Hrev as -> _. reflexivity.
Qed.

Lemma add_one_month i :
  add_months (Ts.of_month_index i) 1 = Ts.of_month_index (i + 1).
Proof.
  unfold add_months. rewrite month_index_of.
  set (f := Ts.of_month_index (i + 1)).
  assert (Hd : 28 <= Ts.days_in_month (year f) (month f)).
  { unfold Ts.days_in_month.
    destruct (month f =? 2); [destruct (Ts.is_leap (year f)); lia|].
    destruct ((month f =? 4) || (month f =? 6) || (month f =? 9) || (month f =? 11)); lia. }
  replace (day (Ts.of_month_index i)) with 1 by reflexivity.
  rewrite Z.min_l by lia. reflexivity.
Qed.

Lemma date_range_from_month i periods :
  date_range_periods_MS (Ts.of_month_index i) periods
  = map Ts.of_month_index (Zseq i periods).
Proof.
  unfold date_range_periods_MS.
  rewrite of_month_index_start, month_index_of. reflexivity.
Qed.

(** ** The shared frame *)

Lemma update_last {A} (l : list A) (x y : A) :
  update (l ++ [x]) (length l) y = l ++ [y].
Proof. induction l as [|a l IH]; simpl; [reflexivity|]. rewrite IH. reflexivity. Qed.

Lemma nth_error_last {A} (l : list A) (x : A) :
  nth_error (l ++ [x]) (length l) = Some x.
Proof. rewrite nth_error_app2, Nat.sub_diag by lia. reflexivity. Qed.

Lemma update_same {A} (l : list A) r x y :
  nth_error l r = Some y -> nth_error (update l r x) r = Some x.
Proof.
  revert r. induction l as [|a l IH]; intros [|r]; simpl; try discriminate; auto.
Qed.

Lemma update_other {A} (l : list A) r r' x :
  r' <> r -> nth_error (update l r x) r' = nth_error l r'.
Proof.
  revert r r'. induction l as [|a l IH]; intros [|r] [|r'] H; simpl; try reflexivity.
  - congruence.
  - apply IH. congruence.
Qed.

Lemma create_visualisations_at argsort st r f :
  nth_error (heap st) r = Some f ->
  create_visualisations argsort r st
  = (revision_charts argsort (rows f),
     mkStore
       (update (heap st) r (assign "MonthLabel" (MonthLabel (rows f)) f))
       (written st
        ++ [("ONS_UK_Vacancies_Consolidated.csv"%string,
             assign "MonthLabel" (MonthLabel (rows f)) f)])).
Proof.
  intros Hf.
  unfold create_visualisations, seq_bind, deref, assign_column, to_csv, lift.
  rewrite Hf. cbn [heap written]. rewrite Hf. cbn [heap written].
  rewrite (update_same _ _ _ _ Hf). cbn [heap written].
  rewrite (update_same _ _ _ _ Hf). reflexivity.
Qed.

Section Run.

Variable in_bounds : Timestamp -> bool.
Variable to_numeric : string -> option Q.
Variable argsort : list Timestamp -> list nat.
Variable diagnostics : Series -> result unit.
Variable fit_forecast : Series -> nat -> result PredictionResults.

Lemma execution_no_data files e st :
  consolidate_all_data in_bounds to_numeric files = Raise e ->
  execution in_bounds to_numeric argsort diagnostics fit_forecast files st
  = (Raise e, st).
Proof.
  intros He. unfold execution, seq_bind at 1, lift at 1. rewrite He. reflexivity.
Qed.

Lemma execution_run files table st :
  consolidate_all_data in_bounds to_numeric files = Ok table ->
  execution in_bounds to_numeric argsort diagnostics fit_forecast files st
  = (match revision_charts argsort table with
     | Ok _ => forecast_vacancies argsort diagnostics fit_forecast table 6
     | Raise e => Raise e
     end,
     mkStore
       (heap st ++ [mkFrame table [("MonthLabel"%string, MonthLabel table)]])
       (written st
        ++ [("ONS_UK_Vacancies_Consolidated.csv"%string,
             mkFrame table [("MonthLabel"%string, MonthLabel table)])])).
Proof.
  intros Hok. unfold execution, seq_bind at 1 2 3, lift at 1, alloc. rewrite Hok.
  rewrite (create_visualisations_at argsort _ (length (heap st)) (mkFrame table []))
    by (cbn [heap]; apply nth_error_last).
  cbn [heap written rows]. rewrite update_last.
  unfold assign. cbn [rows extra existsb app].
  destruct (revision_charts argsort table) as [charts|e]; [|reflexivity].
  unfold seq_bind, deref, lift. cbn [heap written]. rewrite nth_error_last.
  reflexivity.
Qed.

End Run.

(** C10, the counterexample. The frame the consolidator returns for the
    releases of scenario A has the columns Date, Value and Vintage. After
    [create_visualisations], which here draws both charts and returns, the
    same object has a fourth column, MonthLabel, and it has been exported
    with it. *)
Lemma visualisation_adds_month_label :
  consolidate_all_data Ts.ns_bounds Sample.to_numeric [Sample.v1; Sample.v2]
  = Ok Sample.scenario_A
  /\ column_names (mkFrame Sample.scenario_A [])
     = ["Date"; "Value"; "Vintage"]%string
  /\ (exists charts,
        create_visualisations StableSort.argsort 0%nat
          (mkStore [mkFrame Sample.scenario_A []] [])
        = (Ok charts,
           mkStore
             [mkFrame Sample.scenario_A
                [("MonthLabel", ["Jan 2024"; "Jan 2024"; "Feb 2024"])%string]]
             [("ONS_UK_Vacancies_Consolidated.csv"%string,
               mkFrame Sample.scenario_A
                 [("MonthLabel", ["Jan 2024"; "Jan 2024"; "Feb 2024"])%string])]))
  /\ column_names
       (mkFrame Sample.scenario_A
          [("MonthLabel", ["Jan 2024"; "Jan 2024"; "Feb 2024"])%string])
     = ["Date"; "Value"; "Vintage"; "MonthLabel"]%string.
Proof.
  split; [vm_compute; reflexivity|]. split; [reflexivity|].
  split; [|reflexivity]. eexists. vm_compute. reflexivity.
Qed.

(** C10 (as amended). After consolidation the rows of the Revision Table
    and its columns Date, Value and Vintage are never changed. The one
    change to the table is made by [create_visualisations], which adds the
    column MonthLabel to the very frame it is given and exports the frame
    with it, before it draws its charts and whether or not they can be
    drawn; no other frame of the store is touched. In the run, the frame
    left behind is the consolidated table with that column; forecasting is
    reached when the charts could be drawn, and is then given that frame,
    its three columns row for row as consolidated, and changes nothing. *)
Theorem frame_changes_by_month_label_only :
  forall in_bounds to_numeric argsort diagnostics fit_forecast,
    (forall (st : Store) (r : ref) (f : Frame),
        nth_error (heap st) r = Some f ->
        create_visualisations argsort r st
        = (revision_charts argsort (rows f),
           mkStore
             (update (heap st) r (assign "MonthLabel" (MonthLabel (rows f)) f))
             (written st
              ++ [("ONS_UK_Vacancies_Consolidated.csv"%string,
                   assign "MonthLabel" (MonthLabel (rows f)) f)]))
        /\ rows (assign "MonthLabel" (MonthLabel (rows f)) f) = rows f
        /\ (forall r', r' <> r ->
              nth_error
                (update (heap st) r (assign "MonthLabel" (MonthLabel (rows f)) f)) r'
              = nth_error (heap st) r'))
    /\ (forall files table st,
          consolidate_all_data in_bounds to_numeric files = Ok table ->
          execution in_bounds to_numeric argsort diagnostics fit_forecast files st
          = (match revision_charts argsort table with
             | Ok _ => forecast_vacancies argsort diagnostics fit_forecast table 6
             | Raise e => Raise e
             end,
             mkStore
               (heap st ++ [mkFrame table [("MonthLabel"%string, MonthLabel table)]])
               (written st
                ++ [("ONS_UK_Vacancies_Consolidated.csv"%string,
                     mkFrame table [("MonthLabel"%string, MonthLabel table)])]))).
Proof.
  intros in_bounds to_numeric argsort diagnostics fit_forecast. split.
  - intros st r f Hf. split; [|split].
    + apply create_visualisations_at. exact Hf.
    + reflexivity.
    + intros r' Hr. apply update_other. exact Hr.
  - intros files table st Hok. apply execution_run. exact Hok.
Qed.

(** The run on a release of forty-eight months that ends with January
    2024: the charts are drawn, the forecast is made from the table as
    consolidated, and the frame left in the store carries the added
    column. *)
Lemma frame_changes_by_month_label_only_long_release :
  execution Ts.ns_bounds Sample.to_numeric StableSort.argsort
    Sample.diagnostics Sample.flat_forecast [Sample.long_release]
    (mkStore [] [])
  = (match revision_charts StableSort.argsort Sample.long_trend with
     | Ok _ => forecast_vacancies StableSort.argsort Sample.diagnostics
                 Sample.flat_forecast Sample.long_trend 6
     | Raise e => Raise e
     end,
     mkStore
       ([] ++ [mkFrame Sample.long_trend
                 [("MonthLabel"%string, MonthLabel Sample.long_trend)]])
       ([] ++ [("ONS_UK_Vacancies_Consolidated.csv"%string,
                mkFrame Sample.long_trend
                  [("MonthLabel"%string, MonthLabel Sample.long_trend)])])).
Proof.
  apply (proj2 (frame_changes_by_month_label_only Ts.ns_bounds Sample.to_numeric
                  StableSort.argsort Sample.diagnostics Sample.flat_forecast)
           [Sample.long_release] Sample.long_trend (mkStore [] [])).
  vm_compute. reflexivity.
Defined.

Example long_release_run :
  fst (execution Ts.ns_bounds Sample.to_numeric StableSort.argsort
         Sample.diagnostics Sample.flat_forecast [Sample.long_release]
         (mkStore [] []))
  = Ok (map (fun m => mkForecast (mkTs 2024 m 1) (inject_Z 100)
                                 (inject_Z 99) (inject_Z 101))
            [2; 3; 4; 5; 6; 7]).
Proof. vm_compute. reflexivity. Qed.

(** ** Acquisition *)

Module AcquisitionFacts.
Import Acquisition.

Section Download_facts.

Variable fetch : Z -> Response.
Variable data_dir : string.

(** What the [try] statement writes and logs for a vintage number. *)
Local Abbreviation files_of :=
  (fun i => match fetch i with
            | Content body => [(filename data_dir i, body)]
            | Failed _ => []
            end).
Local Abbreviation record_of :=
  (fun i => match fetch i with
            | Content _ => Info ("Downloaded v" ++ str i)%string
            | Failed why =>
                Warning ("Failed to download v" ++ str i ++ ": " ++ why)%string
            end).

Lemma request_spec w i :
  request fetch data_dir w i
  = mkWorld (disk w ++ files_of i) (log w ++ [record_of i]) (slept w)
            (requested w ++ [URL i]).
Proof.
  unfold request. destruct (fetch i); [reflexivity|].
  rewrite app_nil_r. reflexivity.
Qed.

Lemma attempts_from delay ids w :
  0 <= delay ->
  for_each fetch data_dir delay ids w
  = (Ok tt,
     mkWorld (disk w ++ flat_map files_of ids)
             (log w ++ map record_of ids)
             (slept w + delay * Z.of_nat (length ids))
             (requested w ++ map URL ids)).
Proof.
  intros Hd. revert w. induction ids as [|i ids IH]; intros w.
  - simpl. rewrite !app_nil_r, Z.mul_0_r, Z.add_0_r. destruct w; reflexivity.
  - cbn [for_each]. unfold attempt, sleep.
    destruct (delay <? 0) eqn:E; [apply Z.ltb_lt in E; lia|].
    rewrite IH, request_spec. cbn [disk log slept requested flat_map map length].
    rewrite <- !app_assoc. do 2 f_equal. lia.
Qed.

Lemma negative_delay_stops delay i rest w :
  delay < 0 ->
  for_each fetch data_dir delay (i :: rest) w
  = (Raise (ValueError "sleep length must be non-negative"),
     mkWorld (disk w ++ files_of i) (log w ++ [record_of i]) (slept w)
             (requested w ++ [URL i])).
Proof.
  intros Hd. cbn [for_each]. unfold attempt, sleep.
  apply Z.ltb_lt in Hd. rewrite Hd, request_spec. reflexivity.
Qed.

End Download_facts.

Lemma range_down_length start stop :
  length (range_down start stop) = Z.to_nat (start - stop).
Proof. unfold range_down. rewrite length_map, Zseq_length. reflexivity. Qed.

Lemma Zseq_nth start n k :
  (k < n)%nat -> nth_error (Zseq start n) k = Some (start + Z.of_nat k).
Proof.
  revert start k. induction n as [|n IH]; intros start k Hk; [lia|].
  destruct k as [|k]; simpl.
  - f_equal. lia.
  - rewrite IH by lia. f_equal. lia.
Qed.

Lemma range_down_nth start stop k :
  (k < Z.to_nat (start - stop))%nat ->
  nth_error (range_down start stop) k = Some (start - Z.of_nat k).
Proof.
  intros Hk. unfold range_down. rewrite nth_error_map, Zseq_nth by exact Hk.
  reflexivity.
Qed.

Lemma range_down_empty start stop : start <= stop -> range_down start stop = [].
Proof.
  intros H. unfold range_down. replace (Z.to_nat (start - stop)) with 0%nat by lia.
  reflexivity.
Qed.

Lemma Zseq_succ start n : Zseq (start + 1) n = map Z.succ (Zseq start n).
Proof.
  revert start. induction n as [|n IH]; intros start; [reflexivity|].
  cbn [Zseq map]. rewrite IH. reflexivity.
Qed.

Lemma range_down_cons start stop :
  stop < start -> range_down start stop = start :: range_down (start - 1) stop.
Proof.
  intros H. unfold range_down.
  replace (Z.to_nat (start - stop)) with (S (Z.to_nat (start - 1 - stop))) by lia.
  cbn [Zseq map]. f_equal; [lia|].
  rewrite Zseq_succ, map_map. apply map_ext. intros k. lia.
Qed.

(** The vintage numbers run from [start] down to [stop], both included:
    [start - stop + 1] of them, none when [stop] exceeds [start]. With a
    delay that is not negative each is requested once, in that order, and
    the loop sleeps after every request, the last one included. With a
    negative delay [time.sleep] raises after the first request, outside
    the [try]: one request is made and the call ends in [ValueError]. *)
Theorem vintages_requested_in_descending_order :
  forall fetch data_dir start stop delay w,
    length (range_down start (stop - 1)) = Z.to_nat (start - stop + 1)
    /\ (forall k, (k < Z.to_nat (start - stop + 1))%nat ->
                  nth_error (range_down start (stop - 1)) k
                  = Some (start - Z.of_nat k))
    /\ (0 <= delay ->
        fst (download_csv_files fetch data_dir start stop delay w) = Ok tt
        /\ requested (snd (download_csv_files fetch data_dir start stop delay w))
           = requested w ++ map URL (range_down start (stop - 1))
        /\ slept (snd (download_csv_files fetch data_dir start stop delay w))
           = slept w + delay * Z.of_nat (Z.to_nat (start - stop + 1)))
    /\ (delay < 0 -> stop <= start ->
        fst (download_csv_files fetch data_dir start stop delay w)
        = Raise (ValueError "sleep length must be non-negative")
        /\ requested (snd (download_csv_files fetch data_dir start stop delay w))
           = requested w ++ [URL start]
        /\ slept (snd (download_csv_files fetch data_dir start stop delay w))
           = slept w)
    /\ (start < stop ->
        download_csv_files fetch data_dir start stop delay w = (Ok tt, w)).
Proof.
  intros fetch data_dir start stop delay w.
  split; [|split; [|split; [|split]]].
  - rewrite range_down_length. f_equal. lia.
  - intros k Hk. apply range_down_nth.
    replace (start - (stop - 1)) with (start - stop + 1) by lia. exact Hk.
  - intros Hd. unfold download_csv_files. rewrite attempts_from by exact Hd.
    cbn [fst snd requested slept]. rewrite range_down_length.
    replace (start - (stop - 1)) with (start - stop + 1) by lia.
    repeat split.
  - intros Hd Hle. unfold download_csv_files.
    rewrite range_down_cons by lia.
    rewrite negative_delay_stops by exact Hd. repeat split.
  - intros Hlt. unfold download_csv_files. rewrite range_down_empty by lia.
    reflexivity.
Qed.

Example default_range_is_sixty_vintages :
  range_down 117 (58 - 1)
  = [117; 116; 115; 114; 113; 112; 111; 110; 109; 108; 107; 106; 105; 104;
     103; 102; 101; 100; 99; 98; 97; 96; 95; 94; 93; 92; 91; 90; 89; 88; 87;
     86; 85; 84; 83; 82; 81; 80; 79; 78; 77; 76; 75; 74; 73; 72; 71; 70; 69;
     68; 67; 66; 65; 64; 63; 62; 61; 60; 59; 58]
  /\ range_down 58 (117 - 1) = []
  /\ filename "ONS_UK_Vacancies" 117 = "ONS_UK_Vacancies/v117.csv"%string.
Proof. repeat split; vm_compute; reflexivity. Qed.


Example one_failure_among_three :
  download_csv_files
    (fun i => if i =? 60 then Failed "404 Client Error" else Content "Title,Vacancies")
    "ONS_UK_Vacancies" 61 59 3 (mkWorld [] [] 0 [])
  = (Ok tt,
     mkWorld
       [("ONS_UK_Vacancies/v61.csv", "Title,Vacancies");
        ("ONS_UK_Vacancies/v59.csv", "Title,Vacancies")]%string
       [Info "Downloaded v61";
        Warning "Failed to download v60: 404 Client Error";
        Info "Downloaded v59"]
       9
       [URL 61; URL 60; URL 59]).
Proof. vm_compute. reflexivity. Qed.

Example negative_delay_ends_the_loop :
  download_csv_files
    (fun i => if i =? 60 then Failed "404 Client Error" else Content "Title,Vacancies")
    "ONS_UK_Vacancies" 61 59 (-1) (mkWorld [] [] 0 [])
  = (Raise (ValueError "sleep length must be non-negative"),
     mkWorld
       [("ONS_UK_Vacancies/v61.csv", "Title,Vacancies")]%string
       [Info "Downloaded v61"]
       0
       [URL 61]).
Proof. vm_compute. reflexivity. Qed.

End AcquisitionFacts.

(** ** What the parser keeps of a file *)

Lemma upper_lower c : Text.is_upper c = true -> Text.upper (Text.lower c) = c.
Proof. destruct c as [[] [] [] [] [] [] [] []]; vm_compute; congruence. Qed.

Lemma digit_val_range c : Text.is_digit c = true -> 0 <= Text.digit_val c <= 9.
Proof.
  unfold Text.is_digit, Text.digit_val. rewrite andb_true_iff, !Z.leb_le. lia.
Qed.

Lemma digit_char_val c : Text.is_digit c = true -> Text.digit_char (Text.digit_val c) = c.
Proof. destruct c as [[] [] [] [] [] [] [] []]; vm_compute; congruence. Qed.

Lemma digit_char_of x c :
  Text.is_digit c = true -> x mod 10 = Text.digit_val c -> Text.digit_char x = c.
Proof.
  intros Hc Hx. rewrite <- (digit_char_val c Hc).
  pose proof (digit_val_range c Hc).
  unfold Text.digit_char. rewrite Hx, Z.mod_small by lia. reflexivity.
Qed.

Lemma four_digits_num4 a b c d :
  Text.is_digit a = true -> Text.is_digit b = true ->
  Text.is_digit c = true -> Text.is_digit d = true ->
  Ts.four_digits (Strptime.num4 a b c d)
  = String a (String b (String c (String d EmptyString))).
Proof.
  intros Ha Hb Hc Hd.
  pose proof (digit_val_range a Ha). pose proof (digit_val_range b Hb).
  pose proof (digit_val_range c Hc). pose proof (digit_val_range d Hd).
  unfold Ts.four_digits, Strptime.num4.
  repeat f_equal; apply digit_char_of; try assumption;
    Z.div_mod_to_equations; lia.
Qed.

Lemma two_digits_num2 a b :
  Text.is_digit a = true -> Text.is_digit b = true ->
  Ts.two_digits (Strptime.num2 a b) = String a (String b EmptyString).
Proof.
  intros Ha Hb.
  pose proof (digit_val_range a Ha). pose proof (digit_val_range b Hb).
  unfold Ts.two_digits, Strptime.num2.
  repeat f_equal; apply digit_char_of; try assumption;
    Z.div_mod_to_equations; lia.
Qed.

(** The abbreviation of the month that three capitals name. *)
Lemma month_abbr_of_capitals a b c m :
  Text.is_upper a = true ->
  Ts.month_of_abbr (String a (String b (String c EmptyString))) = Some m ->
  nth (Z.to_nat (m - 1)) Ts.month_abbr EmptyString
  = String a (String (Text.lower b) (String (Text.lower c) EmptyString)).
Proof.
  intros Ha. unfold Ts.month_of_abbr. cbn [Text.map_str].
  set (l := String (Text.lower a) (String (Text.lower b) (String (Text.lower c) EmptyString))).
  assert (Hl : forall x y z,
             l = String x (String y (String z EmptyString)) ->
             String a (String (Text.lower b) (String (Text.lower c) EmptyString))
             = String (Text.upper x) (String y (String z EmptyString))).
  { intros x y z E. unfold l in E. injection E as <- <- <-.
    rewrite (upper_lower a Ha). reflexivity. }
  clearbody l. cbn [map Ts.month_abbr Text.map_str Ts.index_of].
  repeat match goal with
         | |- context [String.eqb l ?k] =>
             let E := fresh "E" in
             destruct (String.eqb l k) eqn:E;
             [apply String.eqb_eq in E; intros [= <-];
              rewrite (Hl _ _ _ E); vm_compute; reflexivity|]
         end.
  discriminate.
Qed.

Lemma retained_inv in_bounds to_numeric v r o :
  In o (retained in_bounds to_numeric v r) ->
  exists s y m,
    RawDate r = Some s /\ monthly_label s = Some (y, m)
    /\ in_bounds (mkTs y m 1) = true
    /\ to_numeric (Text.remove_char quote (RawValue r)) = Some (Value o)
    /\ o = mkObs (mkTs y m 1) (Value o) v.
Proof.
  unfold retained, columns, dropna, label.
  destruct (RawDate r) as [s|] eqn:R; [|intros []].
  pose proof (label_accepted in_bounds s) as H.
  destruct (str_match (Some s)); [|intros []].
  rewrite H. destruct (monthly_label s) as [[y m]|] eqn:L; [|intros []].
  destruct (in_bounds (mkTs y m 1)) eqn:B; [|intros []].
  destruct (to_numeric _) as [x|] eqn:N; [|intros []].
  intros [<-|[]]. exists s, y, m. simpl. repeat split; assumption.
Qed.

Lemma retained_length in_bounds to_numeric v r :
  (length (retained in_bounds to_numeric v r) <= 1)%nat.
Proof.
  unfold retained, dropna, columns.
  destruct (str_match _); [|simpl; lia].
  destruct (to_datetime_Yb _ _); [|simpl; lia].
  destruct (to_numeric _); simpl; lia.
Qed.

Lemma flat_map_length_le {A B} (f : A -> list B) l :
  (forall x, length (f x) <= 1)%nat -> (length (flat_map f l) <= length l)%nat.
Proof.
  intros H. induction l as [|x l IH]; simpl; [lia|].
  rewrite length_app. specialize (H x). lia.
Qed.

(** A file yields at most one observation per row of its table, and none
    when it cannot be read. Every observation it yields carries the vintage
    of the file, is dated on the first day of a month the timestamp type
    holds, and comes from a row of the table whose label is the monthly
    label of that year and month and whose value, quotes removed, parses to
    the value of the observation. *)
Theorem parsed_observation_provenance :
  forall in_bounds to_numeric f,
    match f with
    | File _ (Some df) =>
        (length (parse_monthly_series in_bounds to_numeric f) <= length df)%nat
    | _ => parse_monthly_series in_bounds to_numeric f = []
    end
    /\ forall o, In o (parse_monthly_series in_bounds to_numeric f) ->
         Vintage o = extract_vintage_date in_bounds f
         /\ Ts.is_month_start (Date o) = true
         /\ in_bounds (Date o) = true
         /\ exists lines df r s,
              f = File lines (Some df) /\ In r df /\ RawDate r = Some s
              /\ monthly_label s = Some (year (Date o), month (Date o))
              /\ to_numeric (Text.remove_char quote (RawValue r)) = Some (Value o).
Proof.
  intros in_bounds to_numeric f. split.
  - destruct f as [|lines [df|]]; try reflexivity.
    rewrite parse_rows. apply flat_map_length_le. intros r. apply retained_length.
  - intros o Ho.
    split; [eapply parse_Vintage; eauto|].
    split; [eapply parsed_month_start; eauto|].
    destruct f as [|lines [df|]]; try (simpl in Ho; tauto).
    rewrite parse_rows, in_flat_map in Ho. destruct Ho as (r & Hr & Ho).
    apply retained_inv in Ho as (s & y & m & Hs & Hl & Hb & Hn & ->).
    split; [exact Hb|]. exists lines, df, r, s. simpl. auto.
Qed.

(** The label written by the export spells the month and the year of the
    label read: for a monthly label such as "2024 JAN" the [%b %Y] text of
    the parsed date is its last three letters in title case, a space and
    its first four characters ("Jan 2024"). *)
Theorem month_label_spells_period_label :
  forall s y m,
    monthly_label s = Some (y, m) ->
    Ts.strftime_bY (mkTs y m 1)
    = (Text.title (String.substring 5 3 s) ++ " " ++ String.substring 0 4 s)%string.
Proof.
  intros s y m H. unfold monthly_label in H.
  destruct s as [|y1 [|y2 [|y3 [|y4 [|sp [|a [|b [|c [|]]]]]]]]]; try discriminate.
  destruct (Text.is_digit y1) eqn:D1; [|discriminate].
  destruct (Text.is_digit y2) eqn:D2; [|discriminate].
  destruct (Text.is_digit y3) eqn:D3; [|discriminate].
  destruct (Text.is_digit y4) eqn:D4; [|discriminate].
  destruct (Text.lit " " sp) eqn:Sp; [|discriminate].
  destruct (Text.is_upper a) eqn:Ua; [|discriminate].
  destruct (Text.is_upper b) eqn:Ub; [|discriminate].
  destruct (Text.is_upper c) eqn:Uc; [|discriminate].
  cbn [andb] in H.
  destruct (Ts.month_of_abbr _) as [m'|] eqn:M; [|discriminate].
  injection H as <- <-.
  unfold Ts.strftime_bY. cbn [year month day].
  rewrite (month_abbr_of_capitals a b c m' Ua M), (four_digits_num4 _ _ _ _ D1 D2 D3 D4).
  cbn [String.substring]. unfold Text.title. cbn [Text.title_from].
  rewrite (upper_is_alpha _ Ua), (upper_is_alpha _ Ub), (upper_is_alpha _ Uc).
  rewrite (upper_of_upper _ Ua). reflexivity.
Qed.

Lemma month_label_spells_period_label_sample :
  Ts.strftime_bY (mkTs 2024 1 1)
  = (Text.title (String.substring 5 3 "2024 JAN") ++ " "
     ++ String.substring 0 4 "2024 JAN")%string.
Proof.
  apply (month_label_spells_period_label "2024 JAN" 2024 1). reflexivity.
Defined.

(** ** What the release date is read from *)

Lemma fields_dmY_written m d :
  Strptime.fields_dmY m = Some d -> Ts.strftime_dmY d = m.
Proof.
  unfold Strptime.fields_dmY.
  destruct m as [|d1 [|d2 [|s1 [|m1 [|m2 [|s2 [|y1 [|y2 [|y3 [|y4 [|]]]]]]]]]]];
    try discriminate.
  destruct (Text.is_digit d1) eqn:D1; [|discriminate].
  destruct (Text.is_digit d2) eqn:D2; [|discriminate].
  destruct (Text.lit "-" s1) eqn:S1; [|discriminate].
  destruct (Text.is_digit m1) eqn:M1; [|discriminate].
  destruct (Text.is_digit m2) eqn:M2; [|discriminate].
  destruct (Text.lit "-" s2) eqn:S2; [|discriminate].
  destruct (Text.is_digit y1) eqn:Y1; [|discriminate].
  destruct (Text.is_digit y2) eqn:Y2; [|discriminate].
  destruct (Text.is_digit y3) eqn:Y3; [|discriminate].
  destruct (Text.is_digit y4) eqn:Y4; [|discriminate].
  cbn [andb]. intros [= <-]. apply lit_eq in S1, S2. subst s1 s2.
  unfold Ts.strftime_dmY. cbn [year month day].
  rewrite !two_digits_num2, four_digits_num4 by assumption. reflexivity.
Qed.

Lemma re_match_prefix p s m :
  Text.re_match p s = Some m -> exists after, s = (m ++ after)%string.
Proof.
  revert s m. induction p as [|cls p IH]; intros s m; simpl.
  - intros [= <-]. exists s. reflexivity.
  - destruct s as [|c r]; [discriminate|].
    destruct (cls c); [|discriminate].
    destruct (Text.re_match p r) as [m'|] eqn:E; [|discriminate].
    intros [= <-]. destruct (IH _ _ E) as (after & ->).
    exists after. reflexivity.
Qed.

Lemma re_search_occurs p s m :
  Text.re_search p s = Some m ->
  exists before after, s = (before ++ m ++ after)%string.
Proof.
  induction s as [|c r IH]; simpl.
  - destruct (Text.re_match p EmptyString) as [m'|] eqn:E; [|discriminate].
    intros [= <-]. apply re_match_prefix in E as (after & E).
    exists EmptyString, after. exact E.
  - destruct (Text.re_match p (String c r)) as [m'|] eqn:E.
    + intros [= <-]. apply re_match_prefix in E as (after & E).
      exists EmptyString, after. exact E.
    + intros H. destruct (IH H) as (before & after & ->).
      exists (String c before), after. reflexivity.
Qed.

Lemma scan_release_date_found in_bounds lines d :
  scan_release_date in_bounds lines = Some d ->
  exists line m,
    In line lines /\ Text.contains "Release date" line = true
    /\ Text.re_search Text.vintage_pattern line = Some m
    /\ to_datetime_dmY in_bounds m = Some d.
Proof.
  induction lines as [|l lines IH]; simpl; [discriminate|].
  destruct (Text.contains "Release date" l) eqn:Hm.
  - destruct (Text.re_search Text.vintage_pattern l) as [m|] eqn:Hs.
    + intros H. exists l, m. auto.
    + intros H. destruct (IH H) as (line & m & Hin & Hrest).
      exists line, m. auto.
  - intros H. destruct (IH H) as (line & m & Hin & Hrest).
    exists line, m. auto.
Qed.

(** A vintage, when one is returned, is a date of the calendar that the
    timestamp type holds, and its text DD-MM-YYYY stands on a line of the
    file that carries the marker "Release date". *)
Theorem vintage_is_a_date_on_a_marker_line :
  forall in_bounds f d,
    extract_vintage_date in_bounds f = Some d ->
    Ts.calendar_ok d = true /\ in_bounds d = true
    /\ exists lines table line before after,
         f = File lines table /\ In line lines
         /\ Text.contains "Release date" line = true
         /\ line = (before ++ Ts.strftime_dmY d ++ after)%string.
Proof.
  intros in_bounds f d H. destruct f as [|lines table]; [discriminate|].
  simpl in H. apply scan_release_date_found in H as (line & m & Hin & Hmark & Hs & Hd).
  unfold to_datetime_dmY in Hd.
  destruct (Strptime.fields_dmY m) as [t|] eqn:F; [|discriminate].
  destruct (Ts.calendar_ok t) eqn:C; [|discriminate].
  destruct (in_bounds t) eqn:B; [|discriminate].
  injection Hd as <-. apply fields_dmY_written in F. subst m.
  apply re_search_occurs in Hs as (before & after & Hs).
  split; [exact C|]. split; [exact B|].
  exists lines, table, line, before, after. auto.
Qed.

Lemma vintage_is_a_date_on_a_marker_line_sample :
  Ts.calendar_ok (mkTs 2024 1 10) = true /\ Ts.ns_bounds (mkTs 2024 1 10) = true
  /\ exists lines table line before after,
       Sample.v1 = File lines table /\ In line lines
       /\ Text.contains "Release date" line = true
       /\ line = (before ++ Ts.strftime_dmY (mkTs 2024 1 10) ++ after)%string.
Proof.
  apply (vintage_is_a_date_on_a_marker_line Ts.ns_bounds Sample.v1 (mkTs 2024 1 10)).
  vm_compute. reflexivity.
Defined.

(** Only the first line that carries the marker and a match of the pattern
    is ever parsed: the vintage is what [to_datetime] makes of its leftmost
    match, whatever the lines after it hold. When that match is not a date,
    the vintage is missing even if a later marker line has a good date. *)
Theorem first_marker_line_decides :
  forall in_bounds pre line post table m,
    (forall l, In l pre ->
       Text.contains "Release date" l = false
       \/ Text.re_search Text.vintage_pattern l = None) ->
    Text.contains "Release date" line = true ->
    Text.re_search Text.vintage_pattern line = Some m ->
    extract_vintage_date in_bounds (File (pre ++ line :: post) table)
    = to_datetime_dmY in_bounds m.
Proof.
  intros in_bounds pre line post table m Hpre Hmark Hs.
  unfold extract_vintage_date. rewrite (scan_skips _ _ _ Hpre).
  cbn [scan_release_date]. rewrite Hmark, Hs. reflexivity.
Qed.

Lemma first_marker_line_decides_sample :
  extract_vintage_date Ts.ns_bounds
    (File (["Title,Vacancies"%string]
           ++ "Release date,31-02-2024"%string
           :: ["Release date,10-01-2024"%string]) None)
  = to_datetime_dmY Ts.ns_bounds "31-02-2024".
Proof.
  apply (first_marker_line_decides Ts.ns_bounds ["Title,Vacancies"%string]
           "Release date,31-02-2024" ["Release date,10-01-2024"%string] None
           "31-02-2024").
  - intros l [<-|[]]. left. vm_compute. reflexivity.
  - vm_compute. reflexivity.
  - vm_compute. reflexivity.
Defined.

Example invalid_date_masks_later_date :
  to_datetime_dmY Ts.ns_bounds "31-02-2024" = None
  /\ extract_vintage_date Ts.ns_bounds
       (File ["Release date,31-02-2024"; "Release date,10-01-2024"]%string None)
     = None
  /\ extract_vintage_date Ts.ns_bounds
       (File ["Release date,10-01-2024"]%string None)
     = Some (mkTs 2024 1 10).
Proof. repeat split; vm_compute; reflexivity. Qed.

(** ** Files that contribute nothing *)

(** A file that cannot be opened, a file whose table cannot be read and
    any file without a retained row yield no observation, and the
    consolidator gives the same result with such a file as without it. *)
Theorem file_without_observations_changes_nothing :
  forall in_bounds to_numeric,
    parse_monthly_series in_bounds to_numeric Unreadable = []
    /\ (forall lines, parse_monthly_series in_bounds to_numeric (File lines None) = [])
    /\ (forall files1 files2 f,
          parse_monthly_series in_bounds to_numeric f = [] ->
          consolidate_all_data in_bounds to_numeric (files1 ++ f :: files2)
          = consolidate_all_data in_bounds to_numeric (files1 ++ files2)).
Proof.
  intros in_bounds to_numeric. split; [reflexivity|]. split; [reflexivity|].
  intros files1 files2 f Hf. unfold consolidate_all_data.
  rewrite !collect_filter, !map_app, !filter_app.
  cbn [map filter]. rewrite Hf. reflexivity.
Qed.

Lemma file_without_observations_changes_nothing_sample :
  consolidate_all_data Ts.ns_bounds Sample.to_numeric
    ([Sample.v1] ++ Sample.quarterly_only :: [Sample.v2])
  = consolidate_all_data Ts.ns_bounds Sample.to_numeric ([Sample.v1] ++ [Sample.v2]).
Proof.
  apply (proj2 (proj2 (file_without_observations_changes_nothing
                         Ts.ns_bounds Sample.to_numeric))).
  vm_compute. reflexivity.
Defined.

(** ** The order of the files and of the rows *)

Lemma concat_map_perm {A B} (f : A -> list B) l l' :
  Permutation l l' -> Permutation (concat (map f l)) (concat (map f l')).
Proof.
  intros H. rewrite <- !flat_map_concat_map. apply Permutation_flat_map. exact H.
Qed.

(** The order in which the directory lists the files decides the order of
    the rows and nothing else: listing the same files in another order
    gives a table with the same rows, as many times each, or the same
    error. *)
Theorem consolidation_follows_file_order :
  forall in_bounds to_numeric files files',
    Permutation files files' ->
    match consolidate_all_data in_bounds to_numeric files with
    | Ok table =>
        exists table',
          consolidate_all_data in_bounds to_numeric files' = Ok table'
          /\ Permutation table table'
    | Raise e => consolidate_all_data in_bounds to_numeric files' = Raise e
    end.
Proof.
  intros in_bounds to_numeric files files' Hp.
  destruct (consolidate_all_data in_bounds to_numeric files) as [table|e] eqn:E.
  - destruct (consolidate_Ok _ _ _ _ E) as [-> Hne].
    destruct (consolidate_all_data in_bounds to_numeric files') as [table'|e'] eqn:E'.
    + exists table'. split; [reflexivity|].
      destruct (consolidate_Ok _ _ _ _ E') as [-> _].
      apply concat_map_perm. exact Hp.
    + exfalso. unfold consolidate_all_data in E'.
      destruct (collect in_bounds to_numeric files') as [|d l] eqn:C; [|discriminate].
      pose proof (proj1 (collect_nil in_bounds to_numeric files') C) as Hnil.
      apply Hne.
      assert (Hall : forall df, In df (map (parse_monthly_series in_bounds to_numeric) files) -> df = []).
      { intros df Hdf. apply in_map_iff in Hdf as (f & <- & Hf).
        apply Hnil. apply (Permutation_in _ Hp Hf). }
      clear -Hall. induction (map (parse_monthly_series in_bounds to_numeric) files) as [|d l IH];
        [reflexivity|].
      simpl. rewrite (Hall d (or_introl eq_refl)). apply IH.
      intros df Hdf. apply Hall. right. exact Hdf.
  - unfold consolidate_all_data in *.
    destruct (collect in_bounds to_numeric files) as [|d l] eqn:C; [|discriminate].
    injection E as <-.
    pose proof (proj1 (collect_nil in_bounds to_numeric files) C) as Hnil.
    rewrite (proj2 (collect_nil in_bounds to_numeric files')); [reflexivity|].
    intros f Hf. apply Hnil. apply (Permutation_in _ (Permutation_sym Hp) Hf).
Qed.

Lemma consolidation_follows_file_order_sample :
  match consolidate_all_data Ts.ns_bounds Sample.to_numeric [Sample.v1; Sample.v2] with
  | Ok table =>
      exists table',
        consolidate_all_data Ts.ns_bounds Sample.to_numeric [Sample.v2; Sample.v1]
        = Ok table'
        /\ Permutation table table'
  | Raise e =>
      consolidate_all_data Ts.ns_bounds Sample.to_numeric [Sample.v2; Sample.v1]
      = Raise e
  end.
Proof.
  apply (consolidation_follows_file_order Ts.ns_bounds Sample.to_numeric
           [Sample.v1; Sample.v2] [Sample.v2; Sample.v1]).
  apply perm_swap.
Defined.

Lemma selected_strict_max argsort df o :
  sorts argsort -> In o df ->
  (forall o', In o' df -> Date o' = Date o -> o' <> o ->
              vintage_lt (Vintage o') (Vintage o)) ->
  selected argsort df (Date o) = [o].
Proof.
  intros Hsorts Hin Hstrict.
  destruct (selected_max argsort Hsorts df o Hin) as (s & Hsel & Hs & Hd & Hmax).
  destruct (obs_eq_dec s o) as [->|Hne]; [exact Hsel|].
  exfalso. apply (vintage_lt_not_le _ _ (Hstrict s Hs Hd Hne)).
  apply (Hmax o Hin eq_refl).
Qed.

(** When one row of a month has a vintage strictly later than every other
    row of that month, it is the row selected whatever the order of the
    rows in the table and whatever the sorting kernel: the canonical value
    of such a month does not depend on the order in which the files were
    listed. *)
Theorem canonical_row_independent_of_row_order :
  forall argsort argsort' (table table' : DataFrame) (o : Observation),
    sorts argsort -> sorts argsort' ->
    Permutation table table' ->
    In o table ->
    (forall o', In o' table -> Date o' = Date o -> o' <> o ->
                vintage_lt (Vintage o') (Vintage o)) ->
    selected argsort table (Date o) = [o]
    /\ selected argsort' table' (Date o) = [o].
Proof.
  intros argsort argsort' table table' o Hs Hs' Hp Hin Hstrict. split.
  - apply selected_strict_max; assumption.
  - apply selected_strict_max; [assumption|apply (Permutation_in _ Hp Hin)|].
    intros o' Ho'. apply Hstrict. apply (Permutation_in _ (Permutation_sym Hp) Ho').
Qed.

Lemma canonical_row_independent_of_row_order_sample :
  selected StableSort.argsort
    [Sample.obs 2024 1 100 (Some (mkTs 2024 1 10));
     Sample.obs 2024 1 102 (Some (mkTs 2024 2 10))]
    (mkTs 2024 1 1)
  = [Sample.obs 2024 1 102 (Some (mkTs 2024 2 10))]
  /\ selected StableSort.argsort
       [Sample.obs 2024 1 102 (Some (mkTs 2024 2 10));
        Sample.obs 2024 1 100 (Some (mkTs 2024 1 10))]
       (mkTs 2024 1 1)
     = [Sample.obs 2024 1 102 (Some (mkTs 2024 2 10))].
Proof.
  apply (canonical_row_independent_of_row_order
           StableSort.argsort StableSort.argsort
           [Sample.obs 2024 1 100 (Some (mkTs 2024 1 10));
            Sample.obs 2024 1 102 (Some (mkTs 2024 2 10))]
           [Sample.obs 2024 1 102 (Some (mkTs 2024 2 10));
            Sample.obs 2024 1 100 (Some (mkTs 2024 1 10))]
           (Sample.obs 2024 1 102 (Some (mkTs 2024 2 10)))).
  - exact StableSortFacts.stable_argsort_sorts.
  - exact StableSortFacts.stable_argsort_sorts.
  - apply perm_swap.
  - simpl. right. left. reflexivity.
  - intros o' [<-|[<-|[]]] _ Hne.
    + vm_compute. reflexivity.
    + congruence.
Defined.

(** ** The selected rows, in order *)

Lemma ts_le_neq_lt a b : Ts.le a b -> a <> b -> Ts.lt a b.
Proof.
  unfold Ts.le, Ts.lt. rewrite leb_lex, ltb_lex. unfold lex_lt.
  intros H Hne.
  assert (~ (year a = year b /\ month a = month b /\ day a = day b)).
  { intros (Hy & Hm & Hd). apply Hne. destruct a, b; simpl in *. congruence. }
  lia.
Qed.

Lemma ts_lt_asym a b : Ts.lt a b -> Ts.lt b a -> False.
Proof. unfold Ts.lt. rewrite !ltb_lex. unfold lex_lt. lia. Qed.

Lemma sorted_distinct_strict l :
  StronglySorted Ts.le l -> NoDup l -> StronglySorted Ts.lt l.
Proof.
  induction 1 as [|a l Hs IH Hall]; intros Hnd; [constructor|].
  inversion Hnd as [|? ? Hnot Hnd']; subst. constructor; [auto|].
  rewrite Forall_forall in *. intros x Hx. apply ts_le_neq_lt; [auto|].
  intros ->. contradiction.
Qed.

Lemma sort_values_Date_sorted argsort df :
  sorts argsort -> StronglySorted Ts.le (map Date (sort_values_Date argsort df)).
Proof.
  intros Hs. unfold sort_values_Date. rewrite map_take.
  apply Sorted_StronglySorted; [intros a b c; apply ts_le_trans|apply Hs].
Qed.

Lemma latest_data_strict argsort df :
  sorts argsort -> StronglySorted Ts.lt (map Date (latest_data argsort df)).
Proof.
  intros Hs. apply sorted_distinct_strict.
  - apply sort_values_Date_sorted. exact Hs.
  - apply latest_data_NoDup. exact Hs.
Qed.

(** The frame of selected rows has exactly one row for every month the
    table reports, each a row of the table, and its rows are in strictly
    increasing order of month. *)
Theorem latest_data_one_row_per_month :
  forall argsort (all_data : DataFrame),
    sorts argsort ->
    StronglySorted Ts.lt (map Date (latest_data argsort all_data))
    /\ (forall o, In o (latest_data argsort all_data) -> In o all_data)
    /\ (forall o, In o all_data ->
          exists s, In s (latest_data argsort all_data) /\ Date s = Date o).
Proof.
  intros argsort all_data Hs. split; [apply latest_data_strict; exact Hs|].
  split.
  - intros o. apply latest_data_incl. exact Hs.
  - intros o. apply latest_data_covers. exact Hs.
Qed.

Lemma latest_data_one_row_per_month_sample :
  StronglySorted Ts.lt (map Date (latest_data StableSort.argsort Sample.scenario_A))
  /\ (forall o, In o (latest_data StableSort.argsort Sample.scenario_A) ->
                In o Sample.scenario_A)
  /\ (forall o, In o Sample.scenario_A ->
        exists s, In s (latest_data StableSort.argsort Sample.scenario_A)
                  /\ Date s = Date o).
Proof.
  apply (latest_data_one_row_per_month StableSort.argsort Sample.scenario_A).
  exact StableSortFacts.stable_argsort_sorts.
Defined.

Lemma strictly_sorted_perm_eq (l1 l2 : DataFrame) :
  Permutation l1 l2 ->
  StronglySorted Ts.lt (map Date l1) -> StronglySorted Ts.lt (map Date l2) ->
  l1 = l2.
Proof.
  revert l2. induction l1 as [|a r1 IH]; intros l2 Hp H1 H2.
  - apply Permutation_nil in Hp. subst. reflexivity.
  - destruct l2 as [|b r2];
      [apply Permutation_sym, Permutation_nil in Hp; discriminate|].
    simpl in H1, H2.
    inversion H1 as [|? ? H1' Ha]; inversion H2 as [|? ? H2' Hb]; subst.
    rewrite Forall_forall in Ha, Hb.
    assert (Hab : a = b).
    { destruct (obs_eq_dec a b) as [|Hne]; [assumption|]. exfalso.
      assert (Ha2 : In a r2).
      { destruct (Permutation_in a Hp (or_introl eq_refl)) as [E|Hin];
          [congruence|exact Hin]. }
      assert (Hb1 : In b r1).
      { destruct (Permutation_in b (Permutation_sym Hp) (or_introl eq_refl)) as [E|Hin];
          [congruence|exact Hin]. }
      apply (ts_lt_asym (Date a) (Date b)).
      - apply Ha. apply in_map. exact Hb1.
      - apply Hb. apply in_map. exact Ha2. }
    subst b. f_equal. apply IH; [|assumption|assumption].
    apply Permutation_cons_inv in Hp. exact Hp.
Qed.

Lemma groupby_tail1_distinct df :
  has_duplicates (map Date df) = false -> groupby_Date_tail1 df = df.
Proof.
  induction df as [|o df IH]; simpl; [reflexivity|].
  rewrite orb_false_iff. intros [Hex Hd].
  replace (existsb (fun o' => Ts.eqb (Date o') (Date o)) df) with false.
  - rewrite IH by exact Hd. reflexivity.
  - symmetry. apply not_true_iff_false. intros H.
    apply not_true_iff_false in Hex. apply Hex.
    apply existsb_exists in H as (x & Hx & E).
    apply existsb_exists. exists (Date x). split; [apply in_map; exact Hx|].
    rewrite ts_eqb_sym. exact E.
Qed.

(** Building the frame of selected rows from its own output changes
    nothing: the builder is idempotent. *)
Theorem latest_data_idempotent :
  forall argsort (all_data : DataFrame),
    sorts argsort ->
    latest_data argsort (latest_data argsort all_data)
    = latest_data argsort all_data.
Proof.
  intros argsort all_data Hs.
  set (L := latest_data argsort all_data).
  assert (HL : StronglySorted Ts.lt (map Date L)) by (apply latest_data_strict; exact Hs).
  assert (Hnd : NoDup (map Date L)) by (apply latest_data_NoDup; exact Hs).
  pose proof (sort_values_Vintage_perm argsort Hs L) as Hp.
  apply strictly_sorted_perm_eq; [|apply latest_data_strict; exact Hs|exact HL].
  eapply perm_trans; [apply latest_data_perm; exact Hs|].
  rewrite groupby_tail1_distinct; [exact Hp|].
  apply has_duplicates_NoDup.
  apply (Permutation_NoDup (Permutation_map Date (Permutation_sym Hp)) Hnd).
Qed.

Lemma latest_data_idempotent_sample :
  latest_data StableSort.argsort (latest_data StableSort.argsort Sample.scenario_A)
  = latest_data StableSort.argsort Sample.scenario_A.
Proof.
  apply (latest_data_idempotent StableSort.argsort Sample.scenario_A).
  exact StableSortFacts.stable_argsort_sorts.
Defined.

(** ** The data of the revision charts *)

(** The chart of a month shows every row the table holds for that month,
    once each, in the order of their vintages, a row without a vintage
    after the dated ones. *)
Theorem month_data_is_revision_history :
  forall argsort (all_data : DataFrame) (m : Timestamp),
    sorts argsort ->
    Permutation (month_data argsort all_data m)
                (filter (fun o => Ts.eqb (Date o) m) all_data)
    /\ StronglySorted by_vintage (month_data argsort all_data m)
    /\ (forall o, In o (month_data argsort all_data m) <->
                  In o all_data /\ Date o = m).
Proof.
  intros argsort all_data m Hs. unfold month_data.
  pose proof (sort_values_Vintage_perm argsort Hs
                (filter (fun o => Ts.eqb (Date o) m) all_data)) as Hp.
  split; [exact Hp|]. split; [apply sort_values_Vintage_sorted; exact Hs|].
  intros o. split.
  - intros H. apply (Permutation_in _ Hp), filter_In in H as [Hin E].
    apply ts_eqb_eq in E. auto.
  - intros [Hin <-]. apply (Permutation_in _ (Permutation_sym Hp)).
    apply filter_In. split; [exact Hin|apply ts_eqb_refl].
Qed.

Lemma month_data_is_revision_history_sample :
  Permutation (month_data StableSort.argsort Sample.scenario_A (mkTs 2024 1 1))
              (filter (fun o => Ts.eqb (Date o) (mkTs 2024 1 1)) Sample.scenario_A)
  /\ StronglySorted by_vintage
       (month_data StableSort.argsort Sample.scenario_A (mkTs 2024 1 1))
  /\ (forall o, In o (month_data StableSort.argsort Sample.scenario_A (mkTs 2024 1 1))
                <-> In o Sample.scenario_A /\ Date o = mkTs 2024 1 1).
Proof.
  apply (month_data_is_revision_history StableSort.argsort Sample.scenario_A
           (mkTs 2024 1 1)).
  exact StableSortFacts.stable_argsort_sorts.
Defined.

Lemma seen_In t seen : existsb (Ts.eqb t) seen = true <-> In t seen.
Proof.
  rewrite existsb_exists. split.
  - intros (x & Hx & E). apply ts_eqb_eq in E. subst. exact Hx.
  - intros H. exists t. split; [exact H|apply ts_eqb_refl].
Qed.

Lemma drop_duplicates_from_spec seen df :
  NoDup (map Date (drop_duplicates_from seen df))
  /\ (forall o, In o (drop_duplicates_from seen df) -> In o df /\ ~ In (Date o) seen)
  /\ (forall o, In o df -> ~ In (Date o) seen ->
        exists s, In s (drop_duplicates_from seen df) /\ Date s = Date o).
Proof.
  revert seen. induction df as [|x df IH]; intros seen; simpl.
  - split; [constructor|]. split; intros o [].
  - destruct (existsb (Ts.eqb (Date x)) seen) eqn:E.
    + destruct (IH seen) as (Hnd & Hin & Hcov). split; [exact Hnd|]. split.
      * intros o Ho. destruct (Hin o Ho). auto.
      * intros o [<-|Ho] Hns; [|auto].
        exfalso. apply Hns. apply seen_In. exact E.
    + assert (Hx : ~ In (Date x) seen).
      { intros H. apply seen_In in H. congruence. }
      destruct (IH (Date x :: seen)) as (Hnd & Hin & Hcov). split; [|split].
      * simpl. constructor; [|exact Hnd].
        intros H. apply in_map_iff in H as (o & Ho & Hino).
        destruct (Hin o Hino) as [_ Hns]. apply Hns. left. congruence.
      * intros o [<-|Ho]; [auto|].
        destruct (Hin o Ho) as [H1 H2]. split; [auto|].
        intros H. apply H2. right. exact H.
      * intros o [<-|Ho] Hns; [exists x; simpl; auto|].
        destruct (obs_eq_dec x o) as [->|_]; [exists o; simpl; auto|].
        destruct (Ts.eqb (Date x) (Date o)) eqn:Ed.
        -- apply ts_eqb_eq in Ed. exists x. simpl. auto.
        -- destruct (Hcov o Ho) as (s & Hs & Hd).
           ++ intros [H|H]; [|contradiction].
              rewrite H, ts_eqb_refl in Ed. discriminate.
           ++ exists s. simpl. auto.
Qed.

Lemma available_dates_spec argsort df :
  sorts argsort ->
  StronglySorted Ts.lt (available_dates argsort df)
  /\ forall d, In d (available_dates argsort df) <-> exists o, In o df /\ Date o = d.
Proof.
  intros Hs. unfold available_dates, drop_duplicates_Date.
  destruct (drop_duplicates_from_spec [] df) as (Hnd & Hin & Hcov).
  pose proof (sort_values_Date_perm argsort Hs (drop_duplicates_from [] df)) as Hp.
  split.
  - apply sorted_distinct_strict; [apply sort_values_Date_sorted; exact Hs|].
    apply (Permutation_NoDup (Permutation_map Date (Permutation_sym Hp)) Hnd).
  - intros d. split.
    + intros H. apply in_map_iff in H as (o & <- & Ho).
      apply (Permutation_in _ Hp) in Ho. exists o. split; [apply Hin; exact Ho|reflexivity].
    + intros (o & Ho & <-). destruct (Hcov o Ho) as (s & Hsin & Hd); [intros []|].
      rewrite <- Hd. apply in_map.
      apply (Permutation_in _ (Permutation_sym Hp)). exact Hsin.
Qed.

(** The months of the dropdown are the months the table reports, each
    once, in increasing order. *)
Theorem available_dates_are_the_months_reported :
  forall argsort (all_data : DataFrame),
    sorts argsort ->
    StronglySorted Ts.lt (available_dates argsort all_data)
    /\ forall d, In d (available_dates argsort all_data)
                 <-> exists o, In o all_data /\ Date o = d.
Proof. intros argsort all_data Hs. apply available_dates_spec. exact Hs. Qed.

Lemma available_dates_are_the_months_reported_sample :
  StronglySorted Ts.lt (available_dates StableSort.argsort Sample.scenario_A)
  /\ forall d, In d (available_dates StableSort.argsort Sample.scenario_A)
               <-> exists o, In o Sample.scenario_A /\ Date o = d.
Proof.
  apply (available_dates_are_the_months_reported StableSort.argsort Sample.scenario_A).
  exact StableSortFacts.stable_argsort_sorts.
Defined.

Lemma list_index_Ok x l n :
  list_index x l = Ok n -> nth_error l n = Some x.
Proof.
  revert n. induction l as [|y l IH]; intros n; simpl; [discriminate|].
  destruct (Ts.eqb y x) eqn:E.
  - intros [= <-]. apply ts_eqb_eq in E. subst. reflexivity.
  - destruct (list_index x l) as [k|e]; [|discriminate].
    intros [= <-]. simpl. apply IH. reflexivity.
Qed.

Lemma list_index_Raise x l :
  ~ In x l -> exists msg, list_index x l = Raise (ValueError msg).
Proof.
  induction l as [|y l IH]; intros H; simpl; [eauto|].
  destruct (Ts.eqb y x) eqn:E.
  - apply ts_eqb_eq in E. exfalso. apply H. left. exact E.
  - destruct IH as (msg & ->); [intros Hin; apply H; right; exact Hin|]. eauto.
Qed.

Lemma list_index_In x l :
  In x l -> exists n, list_index x l = Ok n.
Proof.
  induction l as [|y l IH]; intros H; simpl; [destruct H|].
  destruct (Ts.eqb y x) eqn:E; [eauto|].
  destruct H as [->|H]; [rewrite ts_eqb_refl in E; discriminate|].
  destruct (IH H) as (n & ->). eauto.
Qed.

Lemma strict_NoDup l : StronglySorted Ts.lt l -> NoDup l.
Proof.
  induction 1 as [|a l _ IH Hall]; constructor; [|exact IH].
  intros Hin. rewrite Forall_forall in Hall.
  apply (ts_lt_asym a a); apply Hall; exact Hin.
Qed.

(** The interactive chart can only be laid out when the table reports
    January 2024: without such a row [available_dates.index(default_month)]
    raises [ValueError]. With one, the chart has a trace and a button for
    every month reported, the menu opens on the position of January 2024,
    and the trace at that position is the only one visible. *)
Theorem dropdown_needs_january_2024 :
  forall argsort (all_data : DataFrame),
    sorts argsort ->
    ((forall o, In o all_data -> Date o <> default_month) ->
     exists msg, dropdown_chart argsort all_data = Raise (ValueError msg))
    /\ ((exists o, In o all_data /\ Date o = default_month) ->
        exists d,
          dropdown_chart argsort all_data = Ok d
          /\ nth_error (available_dates argsort all_data) (active d) = Some default_month
          /\ length (traces d) = length (available_dates argsort all_data)
          /\ length (buttons d) = length (available_dates argsort all_data)
          /\ forall k t, nth_error (traces d) k = Some t ->
                         (trace_visible t = true <-> k = active d)).
Proof.
  intros argsort all_data Hs.
  destruct (available_dates_spec argsort all_data Hs) as [Hsorted Hmem].
  split.
  - intros Hnone.
    destruct (list_index_Raise default_month (available_dates argsort all_data))
      as (msg & E).
    + intros H. apply Hmem in H as (o & Ho & Hd). exact (Hnone o Ho Hd).
    + exists msg. unfold dropdown_chart, bind. rewrite E. reflexivity.
  - intros Hsome. apply Hmem in Hsome.
    destruct (list_index_In _ _ Hsome) as (n & E).
    pose proof (list_index_Ok _ _ _ E) as Hn.
    eexists. unfold dropdown_chart, bind. rewrite E.
    split; [reflexivity|]. cbn [active traces buttons].
    split; [exact Hn|]. rewrite !length_map. split; [reflexivity|].
    split; [reflexivity|].
    intros k t Hk. rewrite nth_error_map in Hk.
    destruct (nth_error (available_dates argsort all_data) k) as [date|] eqn:Ek;
      [|discriminate].
    injection Hk as <-. cbn [trace_visible]. rewrite ts_eqb_eq. split.
    + intros ->. apply strict_NoDup in Hsorted.
      apply (proj1 (NoDup_nth_error _) Hsorted k n).
      * apply nth_error_Some. congruence.
      * congruence.
    + intros ->. congruence.
Qed.

Lemma dropdown_needs_january_2024_sample :
  ((forall o, In o [Sample.obs 2024 2 104 (Some (mkTs 2024 2 10))] ->
              Date o <> default_month) ->
   exists msg,
     dropdown_chart StableSort.argsort [Sample.obs 2024 2 104 (Some (mkTs 2024 2 10))]
     = Raise (ValueError msg))
  /\ ((exists o, In o [Sample.obs 2024 2 104 (Some (mkTs 2024 2 10))]
                 /\ Date o = default_month) ->
      exists d,
        dropdown_chart StableSort.argsort [Sample.obs 2024 2 104 (Some (mkTs 2024 2 10))]
        = Ok d
        /\ nth_error (available_dates StableSort.argsort
                        [Sample.obs 2024 2 104 (Some (mkTs 2024 2 10))]) (active d)
           = Some default_month
        /\ length (traces d)
           = length (available_dates StableSort.argsort
                       [Sample.obs 2024 2 104 (Some (mkTs 2024 2 10))])
        /\ length (buttons d)
           = length (available_dates StableSort.argsort
                       [Sample.obs 2024 2 104 (Some (mkTs 2024 2 10))])
        /\ forall k t, nth_error (traces d) k = Some t ->
                       (trace_visible t = true <-> k = active d)).
Proof.
  apply (dropdown_needs_january_2024 StableSort.argsort
           [Sample.obs 2024 2 104 (Some (mkTs 2024 2 10))]).
  exact StableSortFacts.stable_argsort_sorts.
Defined.

Example dropdown_without_january_2024 :
  dropdown_chart StableSort.argsort [Sample.obs 2024 2 104 (Some (mkTs 2024 2 10))]
  = Raise (ValueError "Timestamp('2024-01-01 00:00:00') is not in list")
  /\ (exists d, dropdown_chart StableSort.argsort Sample.scenario_A = Ok d
                /\ active d = 0%nat
                /\ map trace_name (traces d) = ["Jan 2024"; "Feb 2024"]%string
                /\ map trace_visible (traces d) = [true; false]).
Proof.
  split; [vm_compute; reflexivity|].
  eexists. split; [vm_compute; reflexivity|]. repeat split.
Qed.

(** ** The run, stage by stage *)

Lemma list_index_absent x l :
  ~ In x l ->
  list_index x l = Raise (ValueError "Timestamp('2024-01-01 00:00:00') is not in list").
Proof.
  induction l as [|y l IH]; intros H; simpl; [reflexivity|].
  destruct (Ts.eqb y x) eqn:E.
  - apply ts_eqb_eq in E. exfalso. apply H. left. exact E.
  - rewrite IH; [reflexivity|]. intros Hin. apply H. right. exact Hin.
Qed.

Lemma reports_month (table : DataFrame) d :
  existsb (fun o => Ts.eqb (Date o) d) table = true
  <-> exists o, In o table /\ Date o = d.
Proof.
  rewrite existsb_exists. split; intros (o & Ho & E); exists o; split; try exact Ho;
    apply ts_eqb_eq; exact E.
Qed.

Lemma revision_charts_outcome argsort (table : DataFrame) :
  sorts argsort ->
  match revision_charts argsort table with
  | Ok _ => existsb (fun o => Ts.eqb (Date o) default_month) table = true
  | Raise e =>
      existsb (fun o => Ts.eqb (Date o) default_month) table = false
      /\ e = ValueError "Timestamp('2024-01-01 00:00:00') is not in list"
  end.
Proof.
  intros Hs. destruct (available_dates_spec argsort table Hs) as [_ Hmem].
  unfold revision_charts, dropdown_chart, bind.
  destruct (existsb (fun o => Ts.eqb (Date o) default_month) table) eqn:E.
  - apply reports_month, Hmem, list_index_In in E as (n & ->). reflexivity.
  - rewrite list_index_absent; [split; reflexivity|].
    intros Hin. apply Hmem, reports_month in Hin. congruence.
Qed.

(** The run stops at its first fatal condition, and what was done before
    it stays done. When consolidation raises, the run ends with that error
    and the store is as it was: nothing is labelled or exported. Otherwise
    the table is labelled and exported; then, when it does not report
    January 2024, the run ends in the [ValueError] of the dropdown chart
    and no forecast is made, whatever the series would have given; when it
    does, the outcome of the run is that of [forecast_vacancies] on the
    consolidated table with a horizon of six months. *)
Theorem run_stops_at_first_failure :
  forall in_bounds to_numeric argsort diagnostics fit_forecast files st,
    sorts argsort ->
    execution in_bounds to_numeric argsort diagnostics fit_forecast files st
    = match consolidate_all_data in_bounds to_numeric files with
      | Raise e => (Raise e, st)
      | Ok table =>
          (if existsb (fun o => Ts.eqb (Date o) default_month) table
           then forecast_vacancies argsort diagnostics fit_forecast table 6
           else Raise (ValueError "Timestamp('2024-01-01 00:00:00') is not in list"),
           mkStore
             (heap st ++ [mkFrame table [("MonthLabel"%string, MonthLabel table)]])
             (written st
              ++ [("ONS_UK_Vacancies_Consolidated.csv"%string,
                   mkFrame table [("MonthLabel"%string, MonthLabel table)])]))
      end.
Proof.
  intros in_bounds to_numeric argsort diagnostics fit_forecast files st Hs.
  destruct (consolidate_all_data in_bounds to_numeric files) as [table|e] eqn:Hc.
  - rewrite (execution_run in_bounds to_numeric argsort diagnostics fit_forecast
               files table st Hc).
    pose proof (revision_charts_outcome argsort table Hs) as Hout.
    destruct (revision_charts argsort table) as [charts|e'].
    + rewrite Hout. reflexivity.
    + destruct Hout as [-> ->]. reflexivity.
  - apply execution_no_data. exact Hc.
Qed.

(** A release that reports February 2024 alone: the table is labelled and
    exported, and the run ends in the [ValueError] of the dropdown chart. *)
Lemma run_stops_at_first_failure_february_only :
  execution Ts.ns_bounds Sample.to_numeric StableSort.argsort
    Sample.diagnostics Sample.flat_forecast [Sample.february_only] (mkStore [] [])
  = (Raise (ValueError "Timestamp('2024-01-01 00:00:00') is not in list"),
     mkStore
       [mkFrame [Sample.obs 2024 2 104 (Some (mkTs 2024 3 10))]
                [("MonthLabel", ["Feb 2024"])%string]]
       [("ONS_UK_Vacancies_Consolidated.csv"%string,
         mkFrame [Sample.obs 2024 2 104 (Some (mkTs 2024 3 10))]
                 [("MonthLabel", ["Feb 2024"])%string])]).
Proof.
  etransitivity.
  - apply (run_stops_at_first_failure Ts.ns_bounds Sample.to_numeric
             StableSort.argsort Sample.diagnostics Sample.flat_forecast
             [Sample.february_only] (mkStore [] [])).
    exact StableSortFacts.stable_argsort_sorts.
  - vm_compute. reflexivity.
Defined.

Example run_without_monthly_rows :
  execution Ts.ns_bounds Sample.to_numeric StableSort.argsort
    Sample.diagnostics Sample.flat_forecast [Sample.quarterly_only] (mkStore [] [])
  = (Raise (ValueError "No valid dataframes to consolidate."), mkStore [] []).
Proof. vm_compute. reflexivity. Qed.

Example run_on_scenario_A :
  execution Ts.ns_bounds Sample.to_numeric StableSort.argsort
    Sample.diagnostics Sample.flat_forecast [Sample.v1; Sample.v2] (mkStore [] [])
  = (Raise (ValueError
       "Can only compute partial correlations for lags up to 50% of the sample size. The requested nlags 20 must be < 0."),
     mkStore
       [mkFrame Sample.scenario_A
          [("MonthLabel", ["Jan 2024"; "Jan 2024"; "Feb 2024"])%string]]
       [("ONS_UK_Vacancies_Consolidated.csv"%string,
         mkFrame Sample.scenario_A
           [("MonthLabel", ["Jan 2024"; "Jan 2024"; "Feb 2024"])%string])]).
Proof. vm_compute. reflexivity. Qed.

(** ** Labelling the table twice *)

Lemma assign_twice name cells f :
  assign name cells (assign name cells f) = assign name cells f.
Proof.
  unfold assign. cbn [rows extra]. f_equal.
  destruct (existsb (fun c => String.eqb (fst c) name) (extra f)) eqn:E.
  - assert (Hex : existsb (fun c => String.eqb (fst c) name)
                    (map (fun c => if String.eqb (fst c) name then (name, cells) else c)
                         (extra f)) = true).
    { apply existsb_exists in E as (c & Hc & Hn).
      apply existsb_exists. exists (name, cells). split; [|apply String.eqb_refl].
      apply in_map_iff. exists c. rewrite Hn. auto. }
    rewrite Hex, map_map. apply map_ext. intros c.
    destruct (String.eqb (fst c) name) eqn:Ec; cbn [fst].
    + rewrite String.eqb_refl. reflexivity.
    + rewrite Ec. reflexivity.
  - rewrite existsb_app. cbn [existsb fst]. rewrite String.eqb_refl, orb_true_r.
    rewrite map_app. cbn [map fst]. rewrite String.eqb_refl. f_equal.
    rewrite <- (map_id (extra f)) at 2. apply map_ext_in. intros c Hc.
    destruct (String.eqb (fst c) name) eqn:Ec; [|reflexivity].
    exfalso. apply not_true_iff_false in E. apply E.
    apply existsb_exists. eauto.
Qed.

Lemma update_update {A} (l : list A) r x y :
  update (update l r x) r y = update l r y.
Proof.
  revert r. induction l as [|a l IH]; intros [|r]; simpl; try reflexivity.
  rewrite IH. reflexivity.
Qed.

(** Calling [create_visualisations] a second time on the same table leaves
    the table as the first call left it: the column MonthLabel is
    replaced by itself, not added again; the table is exported once more;
    and the second call ends as the first did, with the same charts or in
    the same [ValueError]. *)
Theorem create_visualisations_twice :
  forall argsort (st : Store) (r : ref) (f : Frame),
    nth_error (heap st) r = Some f ->
    exists outcome st1 st2 labelled,
      create_visualisations argsort r st = (outcome, st1)
      /\ create_visualisations argsort r st1 = (outcome, st2)
      /\ labelled = assign "MonthLabel" (MonthLabel (rows f)) f
      /\ nth_error (heap st1) r = Some labelled
      /\ heap st2 = heap st1
      /\ written st2
         = written st1 ++ [("ONS_UK_Vacancies_Consolidated.csv"%string, labelled)].
Proof.
  intros argsort st r f Hf.
  set (labelled := assign "MonthLabel" (MonthLabel (rows f)) f).
  pose proof (update_same (heap st) r labelled f Hf) as Hl.
  assert (Hl2 : assign "MonthLabel" (MonthLabel (rows labelled)) labelled = labelled).
  { change (rows labelled) with (rows f). apply assign_twice. }
  exists (revision_charts argsort (rows f)).
  exists (mkStore (update (heap st) r labelled)
                  (written st ++ [("ONS_UK_Vacancies_Consolidated.csv"%string, labelled)])).
  exists (mkStore (update (heap st) r labelled)
                  ((written st ++ [("ONS_UK_Vacancies_Consolidated.csv"%string, labelled)])
                   ++ [("ONS_UK_Vacancies_Consolidated.csv"%string, labelled)])).
  exists labelled.
  split; [apply (create_visualisations_at argsort st r f Hf)|].
  split.
  - rewrite (create_visualisations_at argsort _ r labelled) by (cbn [heap]; exact Hl).
    cbn [heap written]. rewrite Hl2, update_update. reflexivity.
  - cbn [heap written]. repeat split. exact Hl.
Qed.

Lemma create_visualisations_twice_february_only :
  exists outcome st1 st2 labelled,
    create_visualisations StableSort.argsort 0%nat
      (mkStore [mkFrame [Sample.obs 2024 2 104 (Some (mkTs 2024 3 10))] []] [])
    = (outcome, st1)
    /\ create_visualisations StableSort.argsort 0%nat st1 = (outcome, st2)
    /\ labelled
       = assign "MonthLabel"
           (MonthLabel (rows (mkFrame [Sample.obs 2024 2 104 (Some (mkTs 2024 3 10))] [])))
           (mkFrame [Sample.obs 2024 2 104 (Some (mkTs 2024 3 10))] [])
    /\ nth_error (heap st1) 0%nat = Some labelled
    /\ heap st2 = heap st1
    /\ written st2
       = written st1 ++ [("ONS_UK_Vacancies_Consolidated.csv"%string, labelled)].
Proof.
  apply (create_visualisations_twice StableSort.argsort
           (mkStore [mkFrame [Sample.obs 2024 2 104 (Some (mkTs 2024 3 10))] []] [])
           0%nat (mkFrame [Sample.obs 2024 2 104 (Some (mkTs 2024 3 10))] [])).
  reflexivity.
Defined.

Example second_call_on_scenario_A :
  exists charts,
    create_visualisations StableSort.argsort 0%nat
      (snd (create_visualisations StableSort.argsort 0%nat
              (mkStore [mkFrame Sample.scenario_A []] [])))
    = (Ok charts,
       mkStore
         [mkFrame Sample.scenario_A
            [("MonthLabel", ["Jan 2024"; "Jan 2024"; "Feb 2024"])%string]]
         [("ONS_UK_Vacancies_Consolidated.csv"%string,
           mkFrame Sample.scenario_A
             [("MonthLabel", ["Jan 2024"; "Jan 2024"; "Feb 2024"])%string]);
          ("ONS_UK_Vacancies_Consolidated.csv"%string,
           mkFrame Sample.scenario_A
             [("MonthLabel", ["Jan 2024"; "Jan 2024"; "Feb 2024"])%string])]).
Proof. eexists. vm_compute. reflexivity. Qed.

(** ** The forecast table, whatever the fitted model returns *)

Lemma asfreq_MS_index x s :
  asfreq_MS x = Ok s ->
  forall t, In t (map fst s) -> exists k, t = Ts.of_month_index k.
Proof.
  unfold asfreq_MS. destruct (map fst x) as [|t0 r].
  - intros [= <-] t [].
  - destruct (has_duplicates (t0 :: r)); [discriminate|].
    intros [= <-] t Ht. rewrite map_fst_entries in Ht.
    unfold date_range_MS in Ht. apply in_map_iff in Ht as (k & <- & _). eauto.
Qed.

Lemma index_last_In s t : index_last s = Ok t -> In t (map fst s).
Proof.
  unfold index_last. destruct (rev s) as [|[t' v] r] eqn:E; [discriminate|].
  intros [= <-]. apply in_map_iff. exists (t', v). split; [reflexivity|].
  apply in_rev. rewrite E. left. reflexivity.
Qed.

Lemma zip_rows_columns dates forecast lower upper :
  length forecast = length dates -> length lower = length dates ->
  length upper = length dates ->
  length (zip_rows dates forecast lower upper) = length dates
  /\ map fDate (zip_rows dates forecast lower upper) = dates
  /\ map Forecast (zip_rows dates forecast lower upper) = forecast
  /\ map Lower (zip_rows dates forecast lower upper) = lower
  /\ map Upper (zip_rows dates forecast lower upper) = upper.
Proof.
  revert forecast lower upper.
  induction dates as [|d dates IH]; intros [|f forecast] [|l lower] [|u upper];
    simpl; try discriminate; intros Hf Hl Hu; [repeat split|].
  injection Hf as Hf. injection Hl as Hl. injection Hu as Hu.
  destruct (IH forecast lower upper Hf Hl Hu) as (H0 & H1 & H2 & H3 & H4).
  rewrite H0, H1, H2, H3, H4. repeat split.
Qed.

Lemma forecast_frame_Ok dates forecast lower upper rows :
  forecast_frame dates forecast lower upper = Ok rows ->
  length rows = length dates /\ map fDate rows = dates
  /\ map Forecast rows = forecast /\ map Lower rows = lower
  /\ map Upper rows = upper.
Proof.
  unfold forecast_frame.
  destruct (length forecast =? length dates)%nat eqn:Ef; [|discriminate].
  destruct (length lower =? length dates)%nat eqn:El; [|discriminate].
  destruct (length upper =? length dates)%nat eqn:Eu; [|discriminate].
  cbn [andb]. intros [= <-].
  apply Nat.eqb_eq in Ef, El, Eu. apply zip_rows_columns; assumption.
Qed.

Lemma forecast_shape argsort diagnostics fit_forecast all_data h rows :
  forecast_vacancies argsort diagnostics fit_forecast all_data h = Ok rows ->
  exists s k pred,
    ts argsort all_data = Ok s
    /\ diagnostics s = Ok tt
    /\ fit_forecast s h = Ok pred
    /\ index_last s = Ok (Ts.of_month_index k)
    /\ length rows = h
    /\ map fDate rows = map Ts.of_month_index (Zseq (k + 1) h)
    /\ map Forecast rows = predicted_mean pred
    /\ map Lower rows = map fst (conf_int pred)
    /\ map Upper rows = map snd (conf_int pred).
Proof.
  unfold forecast_vacancies, bind.
  destruct (ts argsort all_data) as [s|] eqn:Ets; [|discriminate].
  destruct (diagnostics s) as [[]|] eqn:Ed; [|discriminate].
  destruct (fit_forecast s h) as [pred|] eqn:Ef; [|discriminate].
  destruct (index_last s) as [last|] eqn:El; [|discriminate].
  destruct (asfreq_MS_index _ _ Ets last (index_last_In _ _ El)) as (k & ->).
  rewrite add_one_month, date_range_from_month.
  intros H. apply forecast_frame_Ok in H as (H0 & H1 & H2 & H3 & H4).
  rewrite length_map, Zseq_length in H0.
  exists s, k, pred. repeat split; assumption.
Qed.

(** Whenever [forecast_vacancies] returns a table, whatever the
    diagnostics and the fitted model are, the table has exactly the number
    of rows asked for; row [i] is dated on the month start [i + 1] months
    after the last month of the series; and its point forecast and bounds
    are the [i]-th values the model returned. A model that returns another
    number of values makes the call raise instead. *)
Theorem forecast_table_shape :
  forall argsort diagnostics fit_forecast all_data h rows,
    forecast_vacancies argsort diagnostics fit_forecast all_data h = Ok rows ->
    length rows = h
    /\ exists s last pred,
         ts argsort all_data = Ok s
         /\ index_last s = Ok last
         /\ fit_forecast s h = Ok pred
         /\ map fDate rows
            = map Ts.of_month_index (Zseq (Ts.month_index last + 1) h)
         /\ map Forecast rows = predicted_mean pred
         /\ map Lower rows = map fst (conf_int pred)
         /\ map Upper rows = map snd (conf_int pred).
Proof.
  intros argsort diagnostics fit_forecast all_data h rows H.
  apply forecast_shape in H
    as (s & k & pred & Hts & _ & Hfit & Hlast & Hlen & Hd & Hf & Hl & Hu).
  split; [exact Hlen|]. exists s, (Ts.of_month_index k), pred.
  rewrite month_index_of. repeat split; assumption.
Qed.

Lemma forecast_table_shape_sample :
  length (map (fun m => mkForecast (mkTs 2024 m 1) (inject_Z 100)
                                   (inject_Z 99) (inject_Z 101))
              [2; 3; 4; 5; 6; 7]) = 6%nat
  /\ exists s last pred,
       ts StableSort.argsort Sample.long_trend = Ok s
       /\ index_last s = Ok last
       /\ Sample.flat_forecast s 6 = Ok pred
       /\ map fDate (map (fun m => mkForecast (mkTs 2024 m 1) (inject_Z 100)
                                              (inject_Z 99) (inject_Z 101))
                         [2; 3; 4; 5; 6; 7])
          = map Ts.of_month_index (Zseq (Ts.month_index last + 1) 6)
       /\ map Forecast (map (fun m => mkForecast (mkTs 2024 m 1) (inject_Z 100)
                                                 (inject_Z 99) (inject_Z 101))
                            [2; 3; 4; 5; 6; 7])
          = predicted_mean pred
       /\ map Lower (map (fun m => mkForecast (mkTs 2024 m 1) (inject_Z 100)
                                              (inject_Z 99) (inject_Z 101))
                         [2; 3; 4; 5; 6; 7])
          = map fst (conf_int pred)
       /\ map Upper (map (fun m => mkForecast (mkTs 2024 m 1) (inject_Z 100)
                                              (inject_Z 99) (inject_Z 101))
                         [2; 3; 4; 5; 6; 7])
          = map snd (conf_int pred).
Proof.
  apply (forecast_table_shape StableSort.argsort Sample.diagnostics
           Sample.flat_forecast Sample.long_trend 6).
  vm_compute. reflexivity.
Defined.

Example ragged_model_output_raises :
  forecast_vacancies StableSort.argsort Sample.diagnostics
    (fun _ _ => Ok (mkPred [inject_Z 100] [(inject_Z 99, inject_Z 101)]))
    Sample.long_trend 6
  = Raise (ValueError "All arrays must be of the same length").
Proof. vm_compute. reflexivity. Qed.

Lemma take_nil {A} idx : take (@nil A) idx = [].
Proof.
  induction idx as [|i idx IH]; [reflexivity|].
  unfold take in *. simpl. rewrite IH. destruct i; reflexivity.
Qed.

(** An empty table never gives a forecast: the series is empty, and if the
    diagnostics and the fit let it pass, [ts.index[-1]] raises
    [IndexError]. *)
Theorem forecast_of_empty_table_raises :
  forall argsort diagnostics fit_forecast h,
    exists e, forecast_vacancies argsort diagnostics fit_forecast [] h = Raise e.
Proof.
  intros argsort diagnostics fit_forecast h.
  assert (Hts : ts argsort [] = Ok []).
  { unfold ts, latest_data, sort_values_Date, sort_values_Vintage.
    cbn [dated flat_map map filter]. rewrite take_nil. cbn [app groupby_Date_tail1].
    cbn [map]. rewrite take_nil. reflexivity. }
  unfold forecast_vacancies, bind. rewrite Hts.
  destruct (diagnostics []) as [u|e]; [|eauto].
  destruct (fit_forecast [] h) as [p|e]; [|eauto].
  cbn [index_last rev]. eauto.
Qed.

(** ** History and forecast side by side *)

Lemma Zseq_app start n m :
  Zseq start (n + m) = Zseq start n ++ Zseq (start + Z.of_nat n) m.
Proof.
  revert start. induction n as [|n IH]; intros start.
  - simpl. f_equal. lia.
  - cbn [Nat.add Zseq app]. rewrite IH. do 3 f_equal. lia.
Qed.

(** The months of the series followed by the months of the forecast are
    one run of consecutive month starts, from the earliest month reported
    to the last month forecast: the two lines of the chart meet without a
    gap or an overlap. *)
Theorem history_and_forecast_contiguous :
  forall argsort diagnostics fit_forecast (all_data : DataFrame) h rows,
    sorts argsort ->
    all_data <> [] ->
    Forall (fun o => Ts.is_month_start (Date o) = true) all_data ->
    forecast_vacancies argsort diagnostics fit_forecast all_data h = Ok rows ->
    exists lo s,
      ts argsort all_data = Ok s
      /\ (exists o, In o all_data /\ Ts.month_index (Date o) = lo)
      /\ (forall o, In o all_data -> lo <= Ts.month_index (Date o))
      /\ map fst s ++ map fDate rows
         = map Ts.of_month_index (Zseq lo (length s + h)).
Proof.
  intros argsort diagnostics fit_forecast all_data h rows Hs Hne Hms H.
  apply forecast_shape in H
    as (s & k & pred & Hts & _ & _ & Hlast & _ & Hd & _).
  destruct (ts_grid argsort all_data Hs Hne Hms) as (lo & n & Hts' & Hlo & _ & Hall).
  rewrite Hts in Hts'.
  assert (Hgrid : map fst s = map Ts.of_month_index (Zseq lo (S n))).
  { injection Hts' as ->. apply (map_fst_entries _ (map Ts.of_month_index (Zseq lo (S n)))). }
  clear Hts'.
  rewrite (index_last_grid s lo n Hgrid) in Hlast.
  assert (Hk : Ts.of_month_index (lo + Z.of_nat n) = Ts.of_month_index k) by congruence.
  apply (f_equal Ts.month_index) in Hk. rewrite !month_index_of in Hk. subst k.
  exists lo, s. split; [exact Hts|]. split; [exact Hlo|].
  split; [intros o Ho; apply Hall; exact Ho|].
  assert (Hlen : length s = S n).
  { rewrite <- (length_map fst s), Hgrid, length_map, Zseq_length. reflexivity. }
  rewrite Hlen, Zseq_app, map_app, Hgrid, Hd. do 3 f_equal. lia.
Qed.

Lemma history_and_forecast_contiguous_sample :
  exists lo s,
    ts StableSort.argsort Sample.long_trend = Ok s
    /\ (exists o, In o Sample.long_trend /\ Ts.month_index (Date o) = lo)
    /\ (forall o, In o Sample.long_trend -> lo <= Ts.month_index (Date o))
    /\ map fst s
       ++ map fDate (map (fun m => mkForecast (mkTs 2024 m 1) (inject_Z 100)
                                              (inject_Z 99) (inject_Z 101))
                         [2; 3; 4; 5; 6; 7])
       = map Ts.of_month_index (Zseq lo (length s + 6)).
Proof.
  apply (history_and_forecast_contiguous StableSort.argsort Sample.diagnostics
           Sample.flat_forecast Sample.long_trend 6).
  - exact StableSortFacts.stable_argsort_sorts.
  - discriminate.
  - repeat constructor.
  - vm_compute. reflexivity.
Defined.

(** ** The differenced series *)

Lemma diff_from_In minus prev s t d :
  In (t, d) (dropna_values (diff_from minus prev s)) <->
  (exists a b r, prev = Some a /\ s = (t, Some b) :: r /\ d = minus b a)
  \/ (exists i tp a b,
        nth_error s i = Some (tp, Some a)
        /\ nth_error s (S i) = Some (t, Some b) /\ d = minus b a).
Proof.
  revert prev. induction s as [|[t0 v0] r IH]; intros prev.
  - simpl. split; [intros []|].
    intros [(a & b & r & _ & E & _)|(i & tp & a & b & E & _)];
      [discriminate|destruct i; discriminate].
  - cbn [diff_from dropna_values flat_map snd fst]. rewrite in_app_iff.
    fold (dropna_values (diff_from minus v0 r)). rewrite IH. split.
    + intros [H|[H|H]].
      * destruct prev as [a|], v0 as [b|]; simpl in H; try tauto.
        destruct H as [[= <- <-]|[]]. left. exists a, b, r. auto.
      * destruct H as (a & b & r' & -> & -> & ->).
        right. exists 0%nat, t0, a, b. auto.
      * destruct H as (i & tp & a & b & H1 & H2 & ->).
        right. exists (S i), tp, a, b. auto.
    + intros [(a & b & r' & -> & [= -> -> ->] & ->)|(i & tp & a & b & H1 & H2 & ->)].
      * left. simpl. auto.
      * right. destruct i as [|i].
        -- left. simpl in H1, H2. injection H1 as -> ->.
           destruct r as [|e r']; [discriminate|]. simpl in H2. injection H2 as ->.
           exists a, b, r'. auto.
        -- right. exists i, tp, a, b. auto.
Qed.

(** A month is in the differenced series exactly when the series has a
    value for it and a value for the entry just before it; its difference
    is then what the subtraction of the two cells gives, whatever its
    rounding. The first month never is, and a month without a value takes
    the month after it out as well. *)
Theorem ts_diff_entries :
  forall (minus : Q -> Q -> Q) (s : Series) t d,
    In (t, d) (ts_diff minus s) <->
    exists i tp a b,
      nth_error s i = Some (tp, Some a)
      /\ nth_error s (S i) = Some (t, Some b) /\ d = minus b a.
Proof.
  intros minus s t d. unfold ts_diff, diff. rewrite diff_from_In. split.
  - intros [(a & b & r & E & _)|H]; [discriminate|exact H].
  - intros H. right. exact H.
Qed.

Example ts_diff_with_a_gap :
  ts_diff Qminus
          [(mkTs 2024 1 1, Some (inject_Z 100)); (mkTs 2024 2 1, Some (inject_Z 104));
           (mkTs 2024 3 1, None); (mkTs 2024 4 1, Some (inject_Z 110));
           (mkTs 2024 5 1, Some (inject_Z 111))]
  = [(mkTs 2024 2 1, (inject_Z 104 - inject_Z 100)%Q);
     (mkTs 2024 5 1, (inject_Z 111 - inject_Z 110)%Q)].
Proof. reflexivity. Qed.

Lemma diff_from_complete minus v (l : list (Timestamp * Q)) :
  dropna_values (diff_from minus (Some v) (map (fun e => (fst e, Some (snd e))) l))
  = map (fun p => (fst (snd p), minus (snd (snd p)) (fst p)))
        (combine (v :: map snd l) l).
Proof.
  revert v. induction l as [|[t1 v1] l IH]; intros v; [reflexivity|].
  cbn [map diff_from dropna_values flat_map fst snd app combine].
  fold (dropna_values (diff_from minus (Some v1) (map (fun e => (fst e, Some (snd e))) l))).
  rewrite IH. reflexivity.
Qed.

Lemma combine_with_previous {A B} (x : A) (f : B -> A) (l : list B) :
  map snd (combine (x :: map f l) l) = l.
Proof.
  revert x. induction l as [|e l IH]; intros x; [reflexivity|].
  simpl. f_equal. apply IH.
Qed.

(** On a series without missing values the differenced series has one
    entry for every month but the first, in the order of the series: the
    entry of a month is what the subtraction gives for its value and the
    value of the month before. A series of [m] months without a gap so has
    [m - 1] differences. *)
Theorem ts_diff_of_complete_series :
  forall (minus : Q -> Q -> Q) t0 v0 (l : list (Timestamp * Q)),
    ts_diff minus ((t0, Some v0) :: map (fun e => (fst e, Some (snd e))) l)
    = map (fun p => (fst (snd p), minus (snd (snd p)) (fst p)))
          (combine (v0 :: map snd l) l)
    /\ map fst (ts_diff minus ((t0, Some v0) :: map (fun e => (fst e, Some (snd e))) l))
       = map fst l
    /\ length (ts_diff minus ((t0, Some v0) :: map (fun e => (fst e, Some (snd e))) l))
       = length l.
Proof.
  intros minus t0 v0 l.
  assert (H : ts_diff minus ((t0, Some v0) :: map (fun e => (fst e, Some (snd e))) l)
              = map (fun p => (fst (snd p), minus (snd (snd p)) (fst p)))
                    (combine (v0 :: map snd l) l)).
  { unfold ts_diff, diff. cbn [diff_from dropna_values flat_map snd fst app].
    apply diff_from_complete. }
  pose proof (combine_with_previous v0 snd l) as Hc.
  rewrite H. split; [reflexivity|]. split.
  - etransitivity; [|apply (f_equal (map fst) Hc)]. rewrite !map_map. reflexivity.
  - etransitivity; [|apply (f_equal (@length _) Hc)]. rewrite !length_map. reflexivity.
Qed.

Example ts_diff_of_scenario_B :
  length (ts_diff Qminus Sample.trend_series) = 23%nat
  /\ map fst (ts_diff Qminus Sample.trend_series)
     = map Ts.of_month_index (Zseq (2022 * 12 + 1) 23).
Proof. split; vm_compute; reflexivity. Qed.

(** ** The forecast and the diagnostics before it *)







(** ** The linear script *)

(** In [initial_script.py] the table is sorted by vintage before the
    series is built from it. The rule of selection is the same: of every
    month reported the frame of selected rows holds exactly one row, a row
    of the table whose vintage no row of that month exceeds. *)
Theorem initial_script_selects_latest_vintage :
  forall argsort (all_data : DataFrame) (o : Observation),
    sorts argsort -> In o all_data ->
    exists s,
      filter (fun x => Ts.eqb (Date x) (Date o))
             (latest_data_initial_script argsort all_data) = [s]
      /\ In s all_data /\ Date s = Date o
      /\ forall o', In o' all_data -> Date o' = Date o ->
                    vintage_le (Vintage o') (Vintage s).
Proof.
  intros argsort all_data o Hs Hin.
  destruct (selected_max_initial_script argsort Hs all_data o Hin)
    as (s & Hsel & Hsin & Hd & Hmax).
  exists s. split; [exact Hsel|]. split; [exact Hsin|]. split; [exact Hd|].
  intros o' Ho' Hd'. apply (Hmax o' Ho' Hd').
Qed.

Lemma initial_script_selects_latest_vintage_sample :
  exists s,
    filter (fun x => Ts.eqb (Date x) (mkTs 2024 1 1))
           (latest_data_initial_script StableSort.argsort Sample.scenario_A) = [s]
    /\ In s Sample.scenario_A /\ Date s = mkTs 2024 1 1
    /\ forall o', In o' Sample.scenario_A -> Date o' = mkTs 2024 1 1 ->
                  vintage_le (Vintage o') (Vintage s).
Proof.
  apply (initial_script_selects_latest_vintage StableSort.argsort Sample.scenario_A
           (Sample.obs 2024 1 100 (Some (mkTs 2024 1 10)))).
  - exact StableSortFacts.stable_argsort_sorts.
  - simpl. left. reflexivity.
Defined.
